(** * Peripheral drivers of the robot: DC motor ramp and ultrasonic sensor

    Shallow embedding of [dc_motor.cpp] (class [Motor]) and
    [ultrasonic_sensor.cpp] (class [UltrasonicSensor]).  Both classes are
    polled: an outer loop calls [update()] and the object decides from a
    clock reading whether to act.  The clock and the echo pulse are inputs
    of the model; the peripherals the objects own (two PWM outputs, the
    trigger and echo pins) are part of the state. *)

From Stdlib Require Import ZArith List Bool Lia.
From Stdlib Require Ascii String.
Import ListNotations.

Open Scope Z_scope.

(** ** Arduino core helpers *)

Module Arduino.

(** Fixed-width integers are carried as [Z]; a conversion to a type wraps. *)
Definition to_int8 (x : Z) : Z := (x + 128) mod 256 - 128.
Definition to_uint8 (x : Z) : Z := x mod 256.
Definition to_uint16 (x : Z) : Z := x mod 65536.
Definition to_long (x : Z) : Z := (x + 2147483648) mod 4294967296 - 2147483648.
Definition to_ulong (x : Z) : Z := x mod 4294967296.

(** [#define constrain(amt,low,high)
       ((amt)<(low)?(low):((amt)>(high)?(high):(amt)))] *)
Definition constrain (amt low high : Z) : Z :=
  if amt <? low then low else if amt >? high then high else amt.

(** [#define abs(x) ((x)>0?(x):-(x))] *)
Definition abs (x : Z) : Z := if x >? 0 then x else - x.

(** [long map(long x, long in_min, long in_max, long out_min, long out_max)
      { return (x - in_min) * (out_max - out_min) / (in_max - in_min) + out_min; }]
    Every operation is on [long]; the division truncates toward zero. *)
Definition map (x in_min in_max out_min out_max : Z) : Z :=
  to_long
    (to_long (to_long (to_long (x - in_min) * to_long (out_max - out_min))
              ÷ to_long (in_max - in_min))
     + out_min).

End Arduino.

(** ** The constants of the older motor header, [L298N.h] *)

Module L298N.

Definition MIN_UPDATING_INTERVAL : Z := 50000.
Definition MAX_UPDATING_INTERVAL : Z := 100.

End L298N.

(** ** The DC motor, [dc_motor.cpp] *)

Module DcMotor.

Import Arduino.

(** Modelled from the spec: [dc_motor.h] is missing, so the speed limits are
    the ones of section 4.1 ("clamps v to [-100,100]"), which the comment of
    [Motor::setSpeed] repeats ("from -100 (backward) to 100 (forward)"). *)
Definition MIN_SPEED : Z := -100.
Definition MAX_SPEED : Z := 100.

(** Modelled from the spec: [dc_motor.h] is missing, so the acceleration
    limits are the ones of section 4.1 ("clamps to [0,100]"), which the
    comment of [Motor::setAcceleration] repeats ("from 0 ... to 100"). *)
Definition MIN_ACCELERATION : Z := 0.
Definition MAX_ACCELERATION : Z := 100.

(** A [PwmOut] of the board support package, reduced to what the motor
    drives: whether the timer runs, its carrier frequency and its duty
    cycle in percent. *)
Record PwmOut : Type := mkPwmOut {
  pwm_running : bool;
  pwm_frequency : Z;
  pwm_duty : Z
}.

Definition pwm_begin (frequency duty : Z) (p : PwmOut) : PwmOut :=
  mkPwmOut true frequency duty.

Definition pwm_end (p : PwmOut) : PwmOut :=
  mkPwmOut false (pwm_frequency p) (pwm_duty p).

Definition pulse_perc (duty : Z) (p : PwmOut) : PwmOut :=
  mkPwmOut (pwm_running p) (pwm_frequency p) duty.

(** The object.  [current_speed_] and [setpoint_speed_] are [int8_t],
    [acceleration_] is [uint8_t]; [update_delay_] holds what [map] returns
    (a [long]); [last_ms] is the function-local [static unsigned long] of
    [Motor::update].  The static is one variable for all objects of the
    class: carried in the record it is exact for a program that polls one
    [Motor]; [update_shared] below passes it from object to object. *)
Record Motor : Type := mkMotor {
  forwardPwm : PwmOut;
  backwardPwm : PwmOut;
  enabled_ : bool;
  status_ : bool;
  current_speed_ : Z;
  setpoint_speed_ : Z;
  acceleration_ : Z;
  frequency_ : Z;
  update_delay_ : Z;
  last_ms : Z
}.

Definition with_enabled (b : bool) (m : Motor) : Motor :=
  mkMotor (forwardPwm m) (backwardPwm m) b (status_ m) (current_speed_ m)
          (setpoint_speed_ m) (acceleration_ m) (frequency_ m)
          (update_delay_ m) (last_ms m).

Definition with_status (b : bool) (m : Motor) : Motor :=
  mkMotor (forwardPwm m) (backwardPwm m) (enabled_ m) b (current_speed_ m)
          (setpoint_speed_ m) (acceleration_ m) (frequency_ m)
          (update_delay_ m) (last_ms m).

Definition with_current_speed (v : Z) (m : Motor) : Motor :=
  mkMotor (forwardPwm m) (backwardPwm m) (enabled_ m) (status_ m) v
          (setpoint_speed_ m) (acceleration_ m) (frequency_ m)
          (update_delay_ m) (last_ms m).

Definition with_setpoint_speed (v : Z) (m : Motor) : Motor :=
  mkMotor (forwardPwm m) (backwardPwm m) (enabled_ m) (status_ m)
          (current_speed_ m) v (acceleration_ m) (frequency_ m)
          (update_delay_ m) (last_ms m).

Definition with_acceleration (a : Z) (m : Motor) : Motor :=
  mkMotor (forwardPwm m) (backwardPwm m) (enabled_ m) (status_ m)
          (current_speed_ m) (setpoint_speed_ m) a (frequency_ m)
          (update_delay_ m) (last_ms m).

Definition with_frequency (f : Z) (m : Motor) : Motor :=
  mkMotor (forwardPwm m) (backwardPwm m) (enabled_ m) (status_ m)
          (current_speed_ m) (setpoint_speed_ m) (acceleration_ m) f
          (update_delay_ m) (last_ms m).

Definition with_update_delay (d : Z) (m : Motor) : Motor :=
  mkMotor (forwardPwm m) (backwardPwm m) (enabled_ m) (status_ m)
          (current_speed_ m) (setpoint_speed_ m) (acceleration_ m)
          (frequency_ m) d (last_ms m).

Definition with_last_ms (t : Z) (m : Motor) : Motor :=
  mkMotor (forwardPwm m) (backwardPwm m) (enabled_ m) (status_ m)
          (current_speed_ m) (setpoint_speed_ m) (acceleration_ m)
          (frequency_ m) (update_delay_ m) t.

Definition with_pwm (fw bw : PwmOut) (m : Motor) : Motor :=
  mkMotor fw bw (enabled_ m) (status_ m)
          (current_speed_ m) (setpoint_speed_ m) (acceleration_ m)
          (frequency_ m) (update_delay_ m) (last_ms m).

(** [Motor::~Motor] *)
Definition destroy (m : Motor) : Motor :=
  with_enabled false
    (with_pwm (pwm_end (forwardPwm m)) (pwm_end (backwardPwm m)) m).

(** [Motor::init]: returns [enabled_]. *)
Definition init (m : Motor) : bool * Motor :=
  let m1 := with_acceleration MAX_ACCELERATION m in
  let m2 := with_frequency 33000 m1 in
  let m3 := with_pwm (pwm_begin (frequency_ m2) 0 (forwardPwm m2))
                     (pwm_begin (frequency_ m2) 0 (backwardPwm m2)) m2 in
  let m4 := with_enabled true m3 in
  (enabled_ m4, m4).

(** [Motor::setSpeed(int8_t speed)] *)
Definition setSpeed (speed : Z) (m : Motor) : Motor :=
  with_setpoint_speed (to_int8 (constrain (to_int8 speed) MIN_SPEED MAX_SPEED)) m.

(** [Motor::setAcceleration(uint8_t acceleration)] *)
Definition setAcceleration (acceleration : Z) (m : Motor) : Motor :=
  with_acceleration
    (to_uint8 (constrain (to_uint8 acceleration) MIN_ACCELERATION MAX_ACCELERATION)) m.

(** [Motor::stop]: returns [enabled_]. *)
Definition stop (m : Motor) : bool * Motor :=
  let m1 := with_acceleration MAX_ACCELERATION m in
  let m2 := with_current_speed 0 m1 in
  let m3 := with_setpoint_speed 0 m2 in
  let m4 := with_enabled false m3 in
  (enabled_ m4, m4).

(** [Motor::isUpdating] *)
Definition isUpdating (m : Motor) : bool := status_ m.

(** [Motor::getSpeed] *)
Definition getSpeed (m : Motor) : Z := current_speed_ m.

Section Ramp.

(** The two delays that [Motor::update] hands to [map] are defined in the
    missing [dc_motor.h]; the development is parametric in them.
    [MIN_UPDATE_DELAY] is the delay at [MIN_ACCELERATION] and
    [MAX_UPDATE_DELAY] the delay at [MAX_ACCELERATION]. *)
Variables MIN_UPDATE_DELAY MAX_UPDATE_DELAY : Z.

(** The right-hand side of the assignment to [update_delay_]. *)
Definition update_delay (acceleration : Z) : Z :=
  map acceleration MIN_ACCELERATION MAX_ACCELERATION
      MIN_UPDATE_DELAY MAX_UPDATE_DELAY.

(** [millis() - last_ms > update_delay_], in [unsigned long], with [now]
    the reading of [millis()]. *)
Definition interval_elapsed (now : Z) (m : Motor) : bool :=
  to_ulong (to_ulong now - last_ms m) >? to_ulong (update_delay_ m).

(** The condition of the outer [if] of [Motor::update], evaluated after
    the assignment to [update_delay_]. *)
Definition due (now : Z) (m : Motor) : bool :=
  interval_elapsed now (with_update_delay (update_delay (acceleration_ m)) m).

(** The inner [if]/[else] of [Motor::update]: one step toward the setpoint. *)
Definition ramp_step (m : Motor) : Motor :=
  if negb (setpoint_speed_ m =? current_speed_ m) then
    let m1 := with_status true m in
    if setpoint_speed_ m1 >? current_speed_ m1 then
      with_current_speed (to_int8 (current_speed_ m1 + 1)) m1
    else if setpoint_speed_ m1 <? current_speed_ m1 then
      with_current_speed (to_int8 (current_speed_ m1 - 1)) m1
    else m1
  else with_status false m.

(** The duty cycles written at the end of a tick. *)
Definition drive_pins (m : Motor) : Motor :=
  if current_speed_ m <? 0 then
    let fw := pulse_perc 0 (forwardPwm m) in
    let bw := pulse_perc (abs (current_speed_ m)) (backwardPwm m) in
    with_pwm fw bw m
  else
    let fw := pulse_perc (current_speed_ m) (forwardPwm m) in
    let bw := pulse_perc 0 (backwardPwm m) in
    with_pwm fw bw m.

(** [Motor::update].  [millis()] is read twice: [now] in the condition and
    [now'] in the assignment to [last_ms]. *)
Definition update (now now' : Z) (m : Motor) : Motor :=
  let m1 := with_update_delay (update_delay (acceleration_ m)) m in
  if interval_elapsed now m1 then
    let m2 := with_last_ms (to_ulong now') m1 in
    drive_pins (ramp_step m2)
  else m1.

(** A call of the public interface, and a run of calls. *)
Inductive Call : Type :=
| CallSetSpeed (speed : Z)
| CallSetAcceleration (acceleration : Z)
| CallUpdate (now now' : Z).

Definition call (m : Motor) (c : Call) : Motor :=
  match c with
  | CallSetSpeed v => setSpeed v m
  | CallSetAcceleration a => setAcceleration a m
  | CallUpdate now now' => update now now' m
  end.

Definition run (m : Motor) (cs : list Call) : Motor := fold_left call cs m.

(** Every state a run goes through, the first one included. *)
Fixpoint states (m : Motor) (cs : list Call) : list Motor :=
  m :: match cs with
       | [] => []
       | c :: cs' => states (call m c) cs'
       end.

(** A run of [update] calls, one pair of clock readings each. *)
Fixpoint ticks (m : Motor) (ts : list (Z * Z)) : Motor :=
  match ts with
  | [] => m
  | (now, now') :: ts' => ticks (update now now' m) ts'
  end.

(** Every call of the run finds its interval elapsed. *)
Fixpoint qualifying (m : Motor) (ts : list (Z * Z)) : bool :=
  match ts with
  | [] => true
  | (now, now') :: ts' =>
      due now m && qualifying (update now now' m) ts'
  end.

End Ramp.

(** The values an [int8_t] holds, and the speeds the setter lets through. *)
Definition is_int8 (x : Z) : Prop := -128 <= x <= 127.

Definition speed_in_range (v : Z) : Prop := MIN_SPEED <= v <= MAX_SPEED.

(** [setpoint_speed_] holds a value the class has stored there: the two
    assignments to the field are the one of [setSpeed] and the one of
    [stop]. *)
Definition setpoint_stored (m : Motor) : Prop :=
  (exists speed m0, setpoint_speed_ m = setpoint_speed_ (setSpeed speed m0)) \/
  (exists m0, setpoint_speed_ m = setpoint_speed_ (snd (stop m0))).

(** Modelled from the spec: the two delay constants of the missing
    [dc_motor.h].  Section 4.1 maps the acceleration range [0,100] onto
    [MAX_DELAY, MIN_DELAY]: the delay at acceleration 0, which the code
    calls [MIN_UPDATE_DELAY], is the maximum configured delay, and the
    delay at acceleration 100, which the code calls [MAX_UPDATE_DELAY], is
    the minimum configured delay; both are durations. *)
Record DelayConfig : Type := mkDelayConfig {
  MAX_DELAY : Z;
  MIN_DELAY : Z;
  delays_ordered : 0 <= MIN_DELAY <= MAX_DELAY
}.

Section SharedClock.

Variables MIN_UPDATE_DELAY MAX_UPDATE_DELAY : Z.

(** [Motor::update] on one of several objects: the call starts from the
    value [shared] that the last call on any object left in the static
    [last_ms], and leaves its own. *)
Definition update_shared (now now' : Z) (shared : Z) (m : Motor) : Z * Motor :=
  let m' := update MIN_UPDATE_DELAY MAX_UPDATE_DELAY now now'
              (with_last_ms shared m) in
  (last_ms m', m').

End SharedClock.

(** Concrete objects for the examples: both PWM outputs running at the
    carrier frequency of [init], the clock of the last tick at 0. *)
Definition idle_pwm : PwmOut := mkPwmOut true 33000 0.

Definition sample_motor (status : bool) (current setpoint : Z) : Motor :=
  mkMotor idle_pwm idle_pwm true status current setpoint
          MAX_ACCELERATION 33000 0 0.

(** The duty cycles agree with [current_speed_]: the forward output
    carries a speed above 0, the backward output the size of one below. *)
Definition pwm_matches_speed (m : Motor) : Prop :=
  pwm_duty (forwardPwm m) = Z.max (current_speed_ m) 0 /\
  pwm_duty (backwardPwm m) = Z.max (- current_speed_ m) 0.

Definition is_setSpeed (c : Call) : bool :=
  match c with CallSetSpeed _ => true | _ => false end.

(** Clock readings [step], [2 * step], ... for [n] ticks after [from], with
    the clock at a standstill between the two reads of a call. *)
Fixpoint clock_readings (n : nat) (from step : Z) : list (Z * Z) :=
  match n with
  | O => []
  | S n' => (from + step, from + step) :: clock_readings n' (from + step) step
  end.

(** Polls at a fixed period [step] after [from]; between the two reads of
    [millis()] in the k-th call the clock advances by the k-th of [drifts]. *)
Fixpoint polls (from step : Z) (drifts : list Z) : list (Z * Z) :=
  match drifts with
  | [] => []
  | d :: drifts' =>
      (from + step, from + step + d) :: polls (from + step) step drifts'
  end.

(** An instance of the delays: 50 s at acceleration 0, 100 ms at 100. *)
Definition sample_delays : DelayConfig.
Proof. refine (mkDelayConfig 50000 100 _). lia. Defined.

End DcMotor.

(** ** The ultrasonic sensor, [ultrasonic_sensor.cpp] *)

Module Ultrasonic.

Import Arduino.

Inductive SonarMode : Type := MANUAL | AUTOMATIC.

Definition SonarMode_eqb (a b : SonarMode) : bool :=
  match a, b with
  | MANUAL, MANUAL | AUTOMATIC, AUTOMATIC => true
  | _, _ => false
  end.

Inductive PinLevel : Type := LOW | HIGH.

(** What the object does to its pins, newest event first. *)
Inductive HwEvent : Type :=
| DigitalWrite (pin : Z) (level : PinLevel)
| PulseInLong (pin : Z) (level : PinLevel).

(** The object.  [distance_] is carried as an integer of any size, so that
    the properties of [getDistance] do not depend on the width the missing
    [ultrasonic_sensor.h] gives the field; [last_us] is the function-local
    [static unsigned long] of [computeDistance], one variable for all
    objects of the class and so exact in the record for a program with
    one sensor; [pins] is the history of the trigger and echo pins. *)
Record UltrasonicSensor : Type := mkSensor {
  trigger_pin_ : Z;
  echo_pin_ : Z;
  mode_ : SonarMode;
  status_ : bool;
  distance_ : Z;
  last_us : Z;
  pins : list HwEvent
}.

Definition with_mode (md : SonarMode) (s : UltrasonicSensor) : UltrasonicSensor :=
  mkSensor (trigger_pin_ s) (echo_pin_ s) md (status_ s) (distance_ s)
           (last_us s) (pins s).

Definition with_status (b : bool) (s : UltrasonicSensor) : UltrasonicSensor :=
  mkSensor (trigger_pin_ s) (echo_pin_ s) (mode_ s) b (distance_ s)
           (last_us s) (pins s).

Definition with_distance (d : Z) (s : UltrasonicSensor) : UltrasonicSensor :=
  mkSensor (trigger_pin_ s) (echo_pin_ s) (mode_ s) (status_ s) d
           (last_us s) (pins s).

Definition with_last_us (t : Z) (s : UltrasonicSensor) : UltrasonicSensor :=
  mkSensor (trigger_pin_ s) (echo_pin_ s) (mode_ s) (status_ s) (distance_ s)
           t (pins s).

Definition digitalWrite (pin : Z) (level : PinLevel) (s : UltrasonicSensor)
  : UltrasonicSensor :=
  mkSensor (trigger_pin_ s) (echo_pin_ s) (mode_ s) (status_ s) (distance_ s)
           (last_us s) (DigitalWrite pin level :: pins s).

Definition pulseInLong (pin : Z) (level : PinLevel) (s : UltrasonicSensor)
  : UltrasonicSensor :=
  mkSensor (trigger_pin_ s) (echo_pin_ s) (mode_ s) (status_ s) (distance_ s)
           (last_us s) (PulseInLong pin level :: pins s).

(** What one call of [computeDistance] reads from the outside: the four
    readings of [micros()] (two conditions, two assignments) and the
    duration [pulseInLong] returns. *)
Record Readings : Type := mkReadings {
  us_gate1 : Z;
  us_mark1 : Z;
  us_gate2 : Z;
  us_mark2 : Z;
  echo_us : Z
}.

(** The number of echo measurements in a pin history: one per
    trigger/measure cycle. *)
Fixpoint measurements (h : list HwEvent) : nat :=
  match h with
  | [] => O
  | PulseInLong _ _ :: h' => S (measurements h')
  | DigitalWrite _ _ :: h' => measurements h'
  end.

Section Measure.

(** [pulse_time * kSpeedOfSound * pow(10, -4) / 2] is a floating-point
    expression converted to the type of [distance_]; the constant and the
    type are declared in the missing header.  The value that reaches the
    field is a parameter. *)
Variable distance_of_pulse : Z -> Z.

(** [UltrasonicSensor::computeDistance]: one trigger/measure cycle. *)
Definition computeDistance (r : Readings) (s : UltrasonicSensor)
  : UltrasonicSensor :=
  let s1 := digitalWrite (trigger_pin_ s) LOW s in
  let s2 :=
    if to_ulong (to_ulong (us_gate1 r) - last_us s1) >? 2 then
      digitalWrite (trigger_pin_ s1) HIGH (with_last_us (to_ulong (us_mark1 r)) s1)
    else s1 in
  let s3 :=
    if to_ulong (to_ulong (us_gate2 r) - last_us s2) >? 10 then
      digitalWrite (trigger_pin_ s2) LOW (with_last_us (to_ulong (us_mark2 r)) s2)
    else s2 in
  let s4 := pulseInLong (echo_pin_ s3) HIGH s3 in
  let pulse_time := to_ulong (echo_us r) in
  with_distance (distance_of_pulse pulse_time) s4.

(** [UltrasonicSensor::update] *)
Definition update (r : Readings) (s : UltrasonicSensor) : UltrasonicSensor :=
  if SonarMode_eqb (mode_ s) AUTOMATIC then
    computeDistance r s
  else
    if status_ s then
      with_status false (computeDistance r s)
    else s.

(** [UltrasonicSensor::setMode] *)
Definition setMode (md : SonarMode) (s : UltrasonicSensor) : UltrasonicSensor :=
  with_mode md s.

(** [UltrasonicSensor::startMeasurement] *)
Definition startMeasurement (s : UltrasonicSensor) : UltrasonicSensor :=
  if SonarMode_eqb (mode_ s) MANUAL then with_status true s else s.

(** [UltrasonicSensor::isUpdating] *)
Definition isUpdating (s : UltrasonicSensor) : bool := status_ s.

(** [UltrasonicSensor::getDistance]: the clamped value is stored back and
    returned as [uint16_t]. *)
Definition getDistance (s : UltrasonicSensor) : Z * UltrasonicSensor :=
  let s1 := with_distance (constrain (distance_ s) 0 400) s in
  (to_uint16 (distance_ s1), s1).

(** A call of the public interface, and a run of calls. *)
Inductive Call : Type :=
| CallUpdate (r : Readings)
| CallSetMode (md : SonarMode)
| CallStartMeasurement
| CallIsUpdating
| CallGetDistance.

Definition call (s : UltrasonicSensor) (c : Call) : UltrasonicSensor :=
  match c with
  | CallUpdate r => update r s
  | CallSetMode md => setMode md s
  | CallStartMeasurement => startMeasurement s
  | CallIsUpdating => s
  | CallGetDistance => snd (getDistance s)
  end.

Definition run (s : UltrasonicSensor) (cs : list Call) : UltrasonicSensor :=
  fold_left call cs s.

Fixpoint states (s : UltrasonicSensor) (cs : list Call) : list UltrasonicSensor :=
  s :: match cs with
       | [] => []
       | c :: cs' => states (call s c) cs'
       end.

Definition is_update (c : Call) : bool :=
  match c with CallUpdate _ => true | _ => false end.

(** The call does not take the object out of mode [md]. *)
Definition keeps_mode (md : SonarMode) (c : Call) : bool :=
  match c with CallSetMode md' => SonarMode_eqb md' md | _ => true end.

End Measure.

(** Concrete objects for the examples: trigger on pin 7, echo on pin 8, no
    reading yet; a pulse of 5831 us behind a trigger 20 us after the last
    one; and a conversion with 343 m/s for the speed of sound. *)
Definition sample_sensor (md : SonarMode) (status : bool) (distance : Z)
  : UltrasonicSensor :=
  mkSensor 7 8 md status distance 0 [].

Definition sample_readings (pulse : Z) : Readings :=
  mkReadings 20 20 31 31 pulse.

Definition sample_distance_of_pulse (pulse_time : Z) : Z :=
  pulse_time * 343 / 20000.

Definition is_startMeasurement (c : Call) : bool :=
  match c with CallStartMeasurement => true | _ => false end.

(** A measurement requested and not yet made. *)
Definition pending (s : UltrasonicSensor) : nat :=
  if status_ s then 1%nat else 0%nat.

(** The event is a write to pin [trigger] or a wait for HIGH on pin [echo]. *)
Definition on_own_pins (trigger echo : Z) (e : HwEvent) : Prop :=
  match e with
  | DigitalWrite pin _ => pin = trigger
  | PulseInLong pin level => pin = echo /\ level = HIGH
  end.

(** The level a pin was last driven to, if it was driven at all. *)
Fixpoint last_written (pin : Z) (h : list HwEvent) : option PinLevel :=
  match h with
  | [] => None
  | DigitalWrite p level :: h' =>
      if p =? pin then Some level else last_written pin h'
  | PulseInLong _ _ :: h' => last_written pin h'
  end.

(** The two conditions of [computeDistance]: [micros() - last_us > 2], and
    [micros() - last_us > 10] with the [last_us] the first branch may have
    just assigned. *)
Definition settle_elapsed (r : Readings) (s : UltrasonicSensor) : bool :=
  to_ulong (to_ulong (us_gate1 r) - last_us s) >? 2.

Definition pulse_elapsed (r : Readings) (s : UltrasonicSensor) : bool :=
  to_ulong (to_ulong (us_gate2 r)
            - (if settle_elapsed r s then to_ulong (us_mark1 r) else last_us s))
  >? 10.

End Ultrasonic.

(** ** The display helpers, [lcd_display.h] *)

Module LcdDisplay.

Import Arduino.
Import Ascii String.

(** What the helpers send to the global [lcd] object, newest event first. *)
Inductive LcdEvent : Type :=
| SetCursor (column row : Z)
| Print (text : String.string).

Definition Lcd : Type := list LcdEvent.

Definition lcd_setCursor (column row : Z) (lcd : Lcd) : Lcd :=
  SetCursor column row :: lcd.

Definition lcd_print (text : String.string) (lcd : Lcd) : Lcd :=
  Print text :: lcd.

Definition digit_char (d : Z) : Ascii.ascii :=
  Ascii.ascii_of_nat (48 + Z.to_nat d).

(** The decimal digits of a number that is not negative, most significant
    first; an [int] has at most ten of them. *)
Fixpoint decimal (fuel : nat) (n : Z) (acc : String.string) : String.string :=
  match fuel with
  | O => acc
  | S fuel' =>
      let acc' := String.String (digit_char (n mod 10)) acc in
      if n / 10 =? 0 then acc' else decimal fuel' (n / 10) acc'
  end.

(** [String(int)]: the number in base 10. *)
Definition String_of_int (n : Z) : String.string :=
  if n <? 0
  then String.String "-"%char (decimal 10 (- n) String.EmptyString)
  else decimal 10 n String.EmptyString.

(** [while (str.length() < width) str = " " + str;] -- the loop adds one
    character per turn, so [width] turns are enough. *)
Fixpoint pad_left (fuel : nat) (width : Z) (str : String.string)
  : String.string :=
  match fuel with
  | O => str
  | S fuel' =>
      if Z.of_nat (String.length str) <? width
      then pad_left fuel' width (String.append " " str)
      else str
  end.

Section Format.

(** [pow(10, max_digits) - 1] is a floating-point expression converted to
    [uint16_t]; the value that reaches [limit] is a parameter. *)
Variable limit_of_digits : Z -> Z.

(** [formatNumber(int16_t num, uint8_t max_digits, bool show_sign)], with
    [int] 32 bits wide. *)
Definition formatNumber (num max_digits : Z) (show_sign : bool)
  : String.string :=
  let limit := limit_of_digits max_digits in
  let str := String_of_int (abs (constrain num (- limit) limit)) in
  let sign := if num >? 0 then "+"%string
              else if num <? 0 then "-"%string
              else " "%string in
  let str := if show_sign then String.append sign str else str in
  let width := max_digits + (if show_sign then 1 else 0) in
  pad_left (Z.to_nat width) width str.

(** [lcdUpdate]: [last_num] is a parameter passed by value, so the
    assignment to it at the end is lost on return. *)
Definition lcdUpdate (last_num current_num cursor_x cursor_y max_digits : Z)
           (show_sign : bool) (lcd : Lcd) : Lcd :=
  if negb (last_num =? current_num) then
    let lcd1 := lcd_setCursor cursor_x cursor_y lcd in
    lcd_print (formatNumber current_num max_digits show_sign) lcd1
  else lcd.

End Format.

(** The limit when [pow] is exact and the result fits [uint16_t]. *)
Definition exact_limit (max_digits : Z) : Z := 10 ^ max_digits - 1.

(** A string of [k] blanks. *)
Fixpoint blanks (k : nat) : String.string :=
  match k with
  | O => String.EmptyString
  | S k' => String.String " "%char (blanks k')
  end.

End LcdDisplay.

(** * Properties of the motor *)

Module MotorProofs.

Import Arduino DcMotor.

Lemma to_int8_id (x : Z) : is_int8 x -> to_int8 x = x.
Proof.
  unfold is_int8, to_int8. intros H.
  rewrite Z.mod_small by lia. lia.
Qed.

Lemma to_int8_is_int8 (x : Z) : is_int8 (to_int8 x).
Proof.
  unfold is_int8, to_int8.
  pose proof (Z.mod_pos_bound (x + 128) 256 ltac:(lia)). lia.
Qed.

Lemma constrain_bounds (x lo hi : Z) :
  lo <= hi -> lo <= constrain x lo hi <= hi.
Proof.
  unfold constrain. intros H.
  destruct (x <? lo) eqn:E1; [lia|].
  destruct (x >? hi) eqn:E2; lia.
Qed.

Lemma constrain_inside (x lo hi : Z) :
  lo <= x <= hi -> constrain x lo hi = x.
Proof.
  unfold constrain. intros H.
  destruct (x <? lo) eqn:E1; [lia|].
  destruct (x >? hi) eqn:E2; lia.
Qed.

Lemma speed_in_range_int8 (v : Z) : speed_in_range v -> is_int8 v.
Proof. unfold speed_in_range, is_int8, MIN_SPEED, MAX_SPEED. lia. Qed.

Lemma setSpeed_setpoint_in_range (v : Z) (m : Motor) :
  speed_in_range (setpoint_speed_ (setSpeed v m)).
Proof.
  unfold setSpeed. cbn [setpoint_speed_ with_setpoint_speed].
  pose proof (constrain_bounds (to_int8 v) MIN_SPEED MAX_SPEED) as H.
  unfold speed_in_range. unfold MIN_SPEED, MAX_SPEED in *.
  rewrite to_int8_id; [lia | unfold is_int8; lia].
Qed.

Lemma setSpeed_inside (v : Z) (m : Motor) :
  speed_in_range v -> setpoint_speed_ (setSpeed v m) = v.
Proof.
  intros H. pose proof (speed_in_range_int8 v H) as H8.
  unfold setSpeed. cbn [setpoint_speed_ with_setpoint_speed].
  rewrite (to_int8_id v H8).
  rewrite constrain_inside by exact H.
  apply to_int8_id, H8.
Qed.

Section Ramp.

Variables MIN_UPDATE_DELAY MAX_UPDATE_DELAY : Z.

#[local] Abbreviation update_delay := (update_delay MIN_UPDATE_DELAY MAX_UPDATE_DELAY).
#[local] Abbreviation due := (due MIN_UPDATE_DELAY MAX_UPDATE_DELAY).
#[local] Abbreviation update := (update MIN_UPDATE_DELAY MAX_UPDATE_DELAY).
#[local] Abbreviation call := (call MIN_UPDATE_DELAY MAX_UPDATE_DELAY).
#[local] Abbreviation run := (run MIN_UPDATE_DELAY MAX_UPDATE_DELAY).
#[local] Abbreviation states := (states MIN_UPDATE_DELAY MAX_UPDATE_DELAY).
#[local] Abbreviation ticks := (ticks MIN_UPDATE_DELAY MAX_UPDATE_DELAY).
#[local] Abbreviation qualifying := (qualifying MIN_UPDATE_DELAY MAX_UPDATE_DELAY).

(** *** What a tick does, field by field *)

Lemma update_not_due (now now' : Z) (m : Motor) :
  due now m = false ->
  update now now' m = with_update_delay (update_delay (acceleration_ m)) m.
Proof.
  unfold DcMotor.update, DcMotor.due. intros ->. reflexivity.
Qed.

Lemma update_due (now now' : Z) (m : Motor) :
  due now m = true ->
  update now now' m =
  drive_pins (ramp_step (with_last_ms (to_ulong now')
               (with_update_delay (update_delay (acceleration_ m)) m))).
Proof.
  unfold DcMotor.update, DcMotor.due. intros ->. reflexivity.
Qed.

Lemma drive_pins_fields (m : Motor) :
  current_speed_ (drive_pins m) = current_speed_ m /\
  setpoint_speed_ (drive_pins m) = setpoint_speed_ m /\
  status_ (drive_pins m) = status_ m /\
  enabled_ (drive_pins m) = enabled_ m /\
  acceleration_ (drive_pins m) = acceleration_ m.
Proof.
  unfold drive_pins. destruct (current_speed_ m <? 0); cbn; repeat split.
Qed.

Lemma ramp_step_setpoint (m : Motor) :
  setpoint_speed_ (ramp_step m) = setpoint_speed_ m.
Proof.
  unfold ramp_step.
  destruct (setpoint_speed_ m =? current_speed_ m); cbn; [reflexivity|].
  destruct (setpoint_speed_ m >? current_speed_ m); [reflexivity|].
  destruct (setpoint_speed_ m <? current_speed_ m); reflexivity.
Qed.

Lemma ramp_step_status (m : Motor) :
  status_ (ramp_step m) = negb (setpoint_speed_ m =? current_speed_ m).
Proof.
  unfold ramp_step.
  destruct (setpoint_speed_ m =? current_speed_ m); cbn; [reflexivity|].
  destruct (setpoint_speed_ m >? current_speed_ m); [reflexivity|].
  destruct (setpoint_speed_ m <? current_speed_ m); reflexivity.
Qed.

(** The step never wraps: it increments only below a setpoint that is an
    [int8_t] itself, and decrements only above one. *)
Lemma ramp_step_current (m : Motor) :
  is_int8 (current_speed_ m) -> is_int8 (setpoint_speed_ m) ->
  current_speed_ (ramp_step m) =
  current_speed_ m + Z.sgn (setpoint_speed_ m - current_speed_ m).
Proof.
  unfold is_int8, ramp_step. intros Hc Hs.
  destruct (setpoint_speed_ m =? current_speed_ m) eqn:E; cbn.
  - apply Z.eqb_eq in E. rewrite E, Z.sub_diag. cbn. lia.
  - apply Z.eqb_neq in E.
    destruct (setpoint_speed_ m >? current_speed_ m) eqn:G; cbn.
    + rewrite to_int8_id by (unfold is_int8; lia).
      rewrite Z.sgn_pos by lia. reflexivity.
    + destruct (setpoint_speed_ m <? current_speed_ m) eqn:L; cbn.
      * rewrite to_int8_id by (unfold is_int8; lia).
        rewrite Z.sgn_neg by lia. reflexivity.
      * lia.
Qed.

Lemma update_setpoint (now now' : Z) (m : Motor) :
  setpoint_speed_ (update now now' m) = setpoint_speed_ m.
Proof.
  destruct (due now m) eqn:D.
  - rewrite update_due by exact D.
    destruct (drive_pins_fields (ramp_step (with_last_ms (to_ulong now')
      (with_update_delay (update_delay (acceleration_ m)) m)))) as (_ & -> & _).
    rewrite ramp_step_setpoint. reflexivity.
  - rewrite update_not_due by exact D. reflexivity.
Qed.

Lemma update_current (now now' : Z) (m : Motor) :
  is_int8 (current_speed_ m) -> is_int8 (setpoint_speed_ m) ->
  current_speed_ (update now now' m) =
  if due now m
  then current_speed_ m + Z.sgn (setpoint_speed_ m - current_speed_ m)
  else current_speed_ m.
Proof.
  intros Hc Hs. destruct (due now m) eqn:D.
  - rewrite update_due by exact D.
    destruct (drive_pins_fields (ramp_step (with_last_ms (to_ulong now')
      (with_update_delay (update_delay (acceleration_ m)) m)))) as (-> & _).
    rewrite ramp_step_current; [reflexivity | exact Hc | exact Hs].
  - rewrite update_not_due by exact D. reflexivity.
Qed.

Lemma update_status (now now' : Z) (m : Motor) :
  status_ (update now now' m) =
  if due now m
  then negb (setpoint_speed_ m =? current_speed_ m)
  else status_ m.
Proof.
  destruct (due now m) eqn:D.
  - rewrite update_due by exact D.
    destruct (drive_pins_fields (ramp_step (with_last_ms (to_ulong now')
      (with_update_delay (update_delay (acceleration_ m)) m)))) as (_ & _ & -> & _).
    rewrite ramp_step_status. reflexivity.
  - rewrite update_not_due by exact D. reflexivity.
Qed.

(** *** The ramp stays inside the limits of the setter *)

Lemma sgn_step_between (c sp lo hi : Z) :
  lo <= c <= hi -> lo <= sp <= hi ->
  lo <= c + Z.sgn (sp - c) <= hi /\
  Z.abs (c + Z.sgn (sp - c) - c) <= 1 /\
  (c <= sp -> c + Z.sgn (sp - c) <= sp) /\
  (sp <= c -> sp <= c + Z.sgn (sp - c)) /\
  Z.abs (sp - (c + Z.sgn (sp - c))) <= Z.abs (sp - c).
Proof.
  intros Hc Hs.
  destruct (Z.lt_trichotomy sp c) as [L | [E | G]].
  - rewrite Z.sgn_neg by lia. lia.
  - subst sp. rewrite Z.sub_diag. cbn. lia.
  - rewrite Z.sgn_pos by lia. lia.
Qed.

Lemma call_keeps_speeds_in_range (c : Call) (m : Motor) :
  speed_in_range (current_speed_ m) ->
  speed_in_range (setpoint_speed_ m) ->
  speed_in_range (current_speed_ (call m c)) /\
  speed_in_range (setpoint_speed_ (call m c)).
Proof.
  intros Hc Hs. destruct c as [v | a | now now']; cbn [DcMotor.call].
  - split; [exact Hc | apply setSpeed_setpoint_in_range].
  - split; [exact Hc | exact Hs].
  - rewrite update_setpoint.
    rewrite update_current by (apply speed_in_range_int8; assumption).
    split; [| exact Hs].
    destruct (due now m); [| exact Hc].
    unfold speed_in_range in *.
    apply (sgn_step_between _ _ MIN_SPEED MAX_SPEED Hc Hs).
Qed.

Lemma tick_is_one_step (now now' : Z) (m : Motor) :
  is_int8 (current_speed_ m) -> is_int8 (setpoint_speed_ m) ->
  let m' := update now now' m in
  Z.abs (current_speed_ m' - current_speed_ m) <= 1 /\
  (due now m = false -> current_speed_ m' = current_speed_ m) /\
  (current_speed_ m <= setpoint_speed_ m ->
   current_speed_ m' <= setpoint_speed_ m') /\
  (setpoint_speed_ m <= current_speed_ m ->
   setpoint_speed_ m' <= current_speed_ m') /\
  Z.abs (setpoint_speed_ m' - current_speed_ m')
  <= Z.abs (setpoint_speed_ m - current_speed_ m).
Proof.
  intros Hc Hs m'. subst m'.
  rewrite update_setpoint, update_current by assumption.
  destruct (due now m).
  - destruct (sgn_step_between _ _ (-128) 127 Hc Hs) as (_ & H1 & H2 & H3 & H4).
    repeat split; try assumption. discriminate.
  - repeat split; lia.
Qed.

Lemma states_in_range_one_step (m : Motor) (cs : list Call) :
  speed_in_range (current_speed_ m) ->
  speed_in_range (setpoint_speed_ m) ->
  Forall
    (fun s =>
       speed_in_range (current_speed_ s) /\
       forall now now',
         let s' := update now now' s in
         Z.abs (current_speed_ s' - current_speed_ s) <= 1 /\
         (due now s = false -> current_speed_ s' = current_speed_ s) /\
         (current_speed_ s <= setpoint_speed_ s ->
          current_speed_ s' <= setpoint_speed_ s') /\
         (setpoint_speed_ s <= current_speed_ s ->
          setpoint_speed_ s' <= current_speed_ s') /\
         Z.abs (setpoint_speed_ s' - current_speed_ s')
         <= Z.abs (setpoint_speed_ s - current_speed_ s))
    (states m cs).
Proof.
  revert m. induction cs as [| c cs IH]; intros m Hc Hs; cbn [DcMotor.states].
  - constructor; [| constructor].
    split; [exact Hc |].
    intros now now'. apply tick_is_one_step; apply speed_in_range_int8; assumption.
  - constructor.
    + split; [exact Hc |].
      intros now now'. apply tick_is_one_step; apply speed_in_range_int8; assumption.
    + destruct (call_keeps_speeds_in_range c m Hc Hs) as [Hc' Hs'].
      apply IH; assumption.
Qed.

Lemma setpoint_stored_in_range (m : Motor) :
  setpoint_stored m <-> speed_in_range (setpoint_speed_ m).
Proof.
  split.
  - intros [(v & m0 & E) | (m0 & E)]; rewrite E.
    + apply setSpeed_setpoint_in_range.
    + unfold speed_in_range, MIN_SPEED, MAX_SPEED. cbn. lia.
  - intros H. left. exists (setpoint_speed_ m), m.
    symmetry. apply setSpeed_inside, H.
Qed.

(** C1: in every run of [setSpeed], [setAcceleration] and [update] calls
    that starts from a state with [current_speed_] in [-100,100], on an
    object whose setpoint is one the class has stored, [current_speed_]
    stays in [-100,100]; and in every state of such a run a call of
    [update] changes [current_speed_] by at most 1, leaves it alone when
    the interval has not elapsed, does not carry it past
    [setpoint_speed_], and does not increase the distance between the
    two. *)
Theorem ramp_in_range_one_step_no_overshoot (m : Motor) (cs : list Call) :
  speed_in_range (current_speed_ m) ->
  setpoint_stored m ->
  Forall
    (fun s =>
       speed_in_range (current_speed_ s) /\
       forall now now',
         let s' := update now now' s in
         Z.abs (current_speed_ s' - current_speed_ s) <= 1 /\
         (due now s = false -> current_speed_ s' = current_speed_ s) /\
         (current_speed_ s <= setpoint_speed_ s ->
          current_speed_ s' <= setpoint_speed_ s') /\
         (setpoint_speed_ s <= current_speed_ s ->
          setpoint_speed_ s' <= current_speed_ s') /\
         Z.abs (setpoint_speed_ s' - current_speed_ s')
         <= Z.abs (setpoint_speed_ s - current_speed_ s))
    (states m cs).
Proof.
  intros Hc Hst.
  apply states_in_range_one_step; [exact Hc |].
  apply setpoint_stored_in_range. exact Hst.
Qed.

(** *** [stop] *)

(** C2, as amended: after [stop()] both speeds are 0, the acceleration is
    [MAX_ACCELERATION], [enabled_] is false and false is returned;
    [isUpdating()] still returns what it returned before the call, since
    [stop()] does not write [status_], and returns false after the next
    [update()] that finds its interval elapsed. *)
Theorem stop_zeroes_speeds_keeps_status (m : Motor) :
  let r := fst (stop m) in
  let m' := snd (stop m) in
  current_speed_ m' = 0 /\
  setpoint_speed_ m' = 0 /\
  acceleration_ m' = MAX_ACCELERATION /\
  enabled_ m' = false /\
  r = false /\
  isUpdating m' = isUpdating m /\
  forall now now', due now m' = true -> isUpdating (update now now' m') = false.
Proof.
  cbv zeta. repeat split.
  intros now now' D. unfold isUpdating.
  rewrite update_status, D. reflexivity.
Qed.

(** *** The flag behind [isUpdating] *)

(** C3, as amended: [isUpdating()] returns the stored field [status_];
    [setSpeed], [setAcceleration], [stop] and an [update] whose interval has
    not elapsed leave it as it is, and an [update] whose interval has
    elapsed sets it to whether [setpoint_speed_] and [current_speed_]
    differed when that call began, before its step. *)
Theorem isUpdating_is_flag_of_last_tick (m : Motor) :
  isUpdating m = status_ m /\
  (forall v, isUpdating (setSpeed v m) = isUpdating m) /\
  (forall a, isUpdating (setAcceleration a m) = isUpdating m) /\
  isUpdating (snd (stop m)) = isUpdating m /\
  (forall now now',
     isUpdating (update now now' m) =
     if due now m
     then negb (setpoint_speed_ m =? current_speed_ m)
     else isUpdating m).
Proof.
  repeat split. intros now now'. unfold isUpdating. apply update_status.
Qed.

(** *** The delay between two steps *)

Lemma to_long_id (x : Z) :
  -2147483648 <= x <= 2147483647 -> to_long x = x.
Proof.
  unfold to_long. intros H. rewrite Z.mod_small by lia. lia.
Qed.

Lemma update_delay_linear (a : Z) :
  0 <= MAX_UPDATE_DELAY -> MAX_UPDATE_DELAY <= MIN_UPDATE_DELAY ->
  MIN_UPDATE_DELAY <= 21474836 ->
  0 <= a <= 100 ->
  update_delay a
  = (a * (MAX_UPDATE_DELAY - MIN_UPDATE_DELAY)) ÷ 100 + MIN_UPDATE_DELAY /\
  MAX_UPDATE_DELAY - MIN_UPDATE_DELAY
  <= (a * (MAX_UPDATE_DELAY - MIN_UPDATE_DELAY)) ÷ 100 <= 0.
Proof.
  intros H0 H1 H2 Ha.
  set (d := MAX_UPDATE_DELAY - MIN_UPDATE_DELAY).
  assert (Hq : d <= (a * d) ÷ 100 <= 0).
  { split.
    - replace d with ((100 * d) ÷ 100) at 1
        by (rewrite Z.mul_comm; apply Z.quot_mul; lia).
      apply Z.quot_le_mono; [lia | subst d; nia].
    - replace 0 with (0 ÷ 100) by reflexivity.
      apply Z.quot_le_mono; [lia | subst d; nia]. }
  split; [| exact Hq].
  unfold DcMotor.update_delay, map, MIN_ACCELERATION, MAX_ACCELERATION.
  rewrite !Z.sub_0_r. fold d.
  rewrite (to_long_id a) by lia.
  rewrite (to_long_id d) by (subst d; lia).
  rewrite (to_long_id (a * d)) by (subst d; nia).
  rewrite (to_long_id 100) by lia.
  rewrite (to_long_id ((a * d) ÷ 100)) by (subst d; lia).
  apply to_long_id. subst d. lia.
Qed.

Lemma update_stores_delay (now now' : Z) (m : Motor) :
  update_delay_ (update now now' m) = update_delay (acceleration_ m).
Proof.
  unfold DcMotor.update.
  destruct (interval_elapsed now _); [| reflexivity].
  unfold drive_pins, ramp_step. cbn.
  repeat match goal with
         | |- context [if ?b then _ else _] => destruct b; cbn
         end; reflexivity.
Qed.

Lemma update_delay_ends_and_order :
  0 <= MAX_UPDATE_DELAY -> MAX_UPDATE_DELAY <= MIN_UPDATE_DELAY ->
  MIN_UPDATE_DELAY <= 21474836 ->
  update_delay 100 = MAX_UPDATE_DELAY /\
  update_delay 0 = MIN_UPDATE_DELAY /\
  (forall a b, 0 <= a -> a <= b -> b <= 100 ->
               update_delay b <= update_delay a).
Proof.
  intros H0 H1 H2. repeat split.
  - destruct (update_delay_linear 100 H0 H1 H2 ltac:(lia)) as [E _].
    rewrite E, Z.mul_comm, Z.quot_mul by lia. lia.
  - destruct (update_delay_linear 0 H0 H1 H2 ltac:(lia)) as [E _].
    rewrite E. cbn. lia.
  - intros a b Ha Hab Hb.
    destruct (update_delay_linear a H0 H1 H2 ltac:(lia)) as [-> _].
    destruct (update_delay_linear b H0 H1 H2 ltac:(lia)) as [-> _].
    apply Z.add_le_mono_r, Z.quot_le_mono; [lia | nia].
Qed.

(** *** A ramp from 0 to 50 *)

Lemma ticks_keep_setpoint (ts : list (Z * Z)) (m : Motor) :
  setpoint_speed_ (ticks m ts) = setpoint_speed_ m.
Proof.
  revert m. induction ts as [| [now now'] ts IH]; intros m; cbn [DcMotor.ticks].
  - reflexivity.
  - rewrite IH. apply update_setpoint.
Qed.

Lemma qualifying_ramp_up (sp : Z) (ts : list (Z * Z)) (m : Motor) :
  is_int8 sp ->
  setpoint_speed_ m = sp ->
  is_int8 (current_speed_ m) ->
  current_speed_ m <= sp ->
  qualifying m ts = true ->
  current_speed_ (ticks m ts)
  = Z.min (current_speed_ m + Z.of_nat (length ts)) sp /\
  (ts <> [] ->
   status_ (ticks m ts) = (current_speed_ m + Z.of_nat (length ts) <=? sp)).
Proof.
  intros Hsp. revert m.
  induction ts as [| [now now'] ts IH]; intros m Es Hc Hle Q.
  - cbn. split; [lia | congruence].
  - cbn [DcMotor.qualifying] in Q. apply andb_prop in Q. destruct Q as [D Q].
    cbn [DcMotor.ticks].
    assert (Hs8 : is_int8 (setpoint_speed_ m)) by (rewrite Es; exact Hsp).
    pose proof (update_current now now' m Hc Hs8) as Ec.
    pose proof (update_status now now' m) as Et.
    rewrite D, Es in Ec, Et.
    assert (Hc' : current_speed_ (update now now' m)
                  = Z.min (current_speed_ m + 1) sp).
    { rewrite Ec. destruct (Z.eq_dec sp (current_speed_ m)) as [E | N].
      - rewrite E, Z.sub_diag. cbn. lia.
      - rewrite Z.sgn_pos by lia. lia. }
    destruct (IH (update now now' m)) as [IHc IHs].
    + rewrite update_setpoint. exact Es.
    + rewrite Hc'. unfold is_int8 in *. lia.
    + rewrite Hc'. lia.
    + exact Q.
    + rewrite IHc, Hc'. cbn [length]. split; [lia |].
      intros _. destruct ts as [| t ts'].
      * cbn [DcMotor.ticks length]. rewrite Et.
        destruct (Z.eqb_spec sp (current_speed_ m)); cbn;
          symmetry; [apply Z.leb_gt | apply Z.leb_le]; lia.
      * rewrite IHs by discriminate. rewrite Hc'.
        cbn [length].
        destruct (Z.leb_spec (Z.min (current_speed_ m + 1) sp
                              + Z.of_nat (S (length ts'))) sp);
          symmetry; [apply Z.leb_le | apply Z.leb_gt]; lia.
Qed.

(** C7: from [current_speed_] 0, after [setSpeed(50)], a run of [update]
    calls that each find their interval elapsed leaves [current_speed_] at
    the number of calls up to 50 and at 50 from then on, and [isUpdating()]
    is true after each of the first 50 calls and false after every later
    one.  This holds for every acceleration, 100 included. *)
Theorem ramp_reaches_50_after_50_ticks (m : Motor) (ts : list (Z * Z)) :
  current_speed_ m = 0 ->
  qualifying (setSpeed 50 m) ts = true ->
  let m' := ticks (setSpeed 50 m) ts in
  current_speed_ m' = Z.min (Z.of_nat (length ts)) 50 /\
  (ts <> [] -> isUpdating m' = (Z.of_nat (length ts) <=? 50)).
Proof.
  intros Hc Q m'. subst m'.
  assert (Hsp : setpoint_speed_ (setSpeed 50 m) = 50).
  { apply setSpeed_inside. unfold speed_in_range, MIN_SPEED, MAX_SPEED. lia. }
  assert (Hcur : current_speed_ (setSpeed 50 m) = 0) by exact Hc.
  destruct (qualifying_ramp_up 50 ts (setSpeed 50 m)) as [E1 E2].
  - unfold is_int8. lia.
  - exact Hsp.
  - rewrite Hcur. unfold is_int8. lia.
  - rewrite Hcur. lia.
  - exact Q.
  - rewrite Hcur in E1, E2. cbn [Z.add] in E1, E2.
    split; [exact E1 | exact E2].
Qed.

(** *** [stop] and the peripherals *)

Lemma ramp_step_ignores_enabled (b : bool) (m : Motor) :
  ramp_step (with_enabled b m) = with_enabled b (ramp_step m).
Proof.
  unfold ramp_step.
  cbn [setpoint_speed_ current_speed_ with_enabled with_status].
  destruct (setpoint_speed_ m =? current_speed_ m); cbn [negb]; [reflexivity |].
  destruct (setpoint_speed_ m >? current_speed_ m); [reflexivity |].
  destruct (setpoint_speed_ m <? current_speed_ m); reflexivity.
Qed.

Lemma drive_pins_ignores_enabled (b : bool) (m : Motor) :
  drive_pins (with_enabled b m) = with_enabled b (drive_pins m).
Proof.
  unfold drive_pins. cbn [current_speed_ with_enabled].
  destruct (current_speed_ m <? 0); reflexivity.
Qed.

Lemma call_ignores_enabled (b : bool) (c : Call) (m : Motor) :
  call (with_enabled b m) c = with_enabled b (call m c).
Proof.
  destruct c as [v | a | now now']; cbn [DcMotor.call]; try reflexivity.
  assert (D : due now (with_enabled b m) = due now m) by reflexivity.
  destruct (due now m) eqn:E.
  - rewrite (update_due now now' m E), (update_due now now' _ D).
    rewrite <- drive_pins_ignores_enabled, <- ramp_step_ignores_enabled.
    reflexivity.
  - rewrite (update_not_due now now' m E), (update_not_due now now' _ D).
    reflexivity.
Qed.

Lemma run_ignores_enabled (b : bool) (cs : list Call) (m : Motor) :
  run (with_enabled b m) cs = with_enabled b (run m cs).
Proof.
  revert m. induction cs as [| c cs IH]; intros m; cbn.
  - reflexivity.
  - rewrite call_ignores_enabled. apply IH.
Qed.

(** C9: [stop()] leaves both PWM outputs as they are and changes nothing
    but the two speeds, the acceleration and [enabled_]; the outputs stay
    as they are through [setSpeed], [setAcceleration] and every [update]
    whose interval has not elapsed, and are written from [current_speed_]
    by the next [update] whose interval has elapsed; and no run of
    [setSpeed], [setAcceleration] and [update] calls reads or writes
    [enabled_], so after [stop()] the object behaves as when enabled. *)
Theorem stop_writes_no_pwm_enabled_unused (m : Motor) :
  let m' := snd (stop m) in
  (forwardPwm m' = forwardPwm m /\ backwardPwm m' = backwardPwm m) /\
  (status_ m' = status_ m /\ frequency_ m' = frequency_ m /\
   update_delay_ m' = update_delay_ m /\ last_ms m' = last_ms m) /\
  (forall v, forwardPwm (setSpeed v m') = forwardPwm m /\
             backwardPwm (setSpeed v m') = backwardPwm m) /\
  (forall a, forwardPwm (setAcceleration a m') = forwardPwm m /\
             backwardPwm (setAcceleration a m') = backwardPwm m) /\
  (forall now now',
     if due now m'
     then forwardPwm (update now now' m') = pulse_perc 0 (forwardPwm m) /\
          backwardPwm (update now now' m') = pulse_perc 0 (backwardPwm m)
     else forwardPwm (update now now' m') = forwardPwm m /\
          backwardPwm (update now now' m') = backwardPwm m) /\
  (forall cs, run m' cs = with_enabled false (run (with_enabled true m') cs)) /\
  (forall v, setpoint_speed_ (setSpeed v m')
             = constrain (to_int8 v) MIN_SPEED MAX_SPEED).
Proof.
  cbv zeta. repeat split.
  - intros now now'. destruct (due now (snd (stop m))) eqn:D.
    + rewrite update_due by exact D. split; reflexivity.
    + rewrite update_not_due by exact D. split; reflexivity.
  - intros cs. rewrite run_ignores_enabled.
    destruct (run (snd (stop m)) cs) eqn:E.
    assert (H : enabled_ (run (snd (stop m)) cs) = false).
    { replace (snd (stop m)) with (with_enabled false (snd (stop m)))
        by reflexivity.
      rewrite run_ignores_enabled. reflexivity. }
    rewrite E in H. cbn in H. subst. reflexivity.
  - intros v. cbn.
    apply to_int8_id.
    pose proof (constrain_bounds (to_int8 v) MIN_SPEED MAX_SPEED) as H.
    unfold is_int8, MIN_SPEED, MAX_SPEED in *. lia.
Qed.

End Ramp.

(** C6: with the two delays as the spec configures them, the maximum delay
    in the place of [MIN_UPDATE_DELAY] and the minimum delay in the place
    of [MAX_UPDATE_DELAY], and a maximum delay that fits the [long]
    product of [map], the delay that [update] computes and stores is the
    minimum configured delay at acceleration 100, the maximum configured
    delay at acceleration 0, and never grows when the acceleration grows. *)
Theorem update_delay_decreases_with_acceleration (cfg : DelayConfig) :
  MAX_DELAY cfg <= 21474836 ->
  update_delay (MAX_DELAY cfg) (MIN_DELAY cfg) 100 = MIN_DELAY cfg /\
  update_delay (MAX_DELAY cfg) (MIN_DELAY cfg) 0 = MAX_DELAY cfg /\
  (forall a b, 0 <= a -> a <= b -> b <= 100 ->
     update_delay (MAX_DELAY cfg) (MIN_DELAY cfg) b
     <= update_delay (MAX_DELAY cfg) (MIN_DELAY cfg) a) /\
  (forall now now' m,
     update_delay_ (update (MAX_DELAY cfg) (MIN_DELAY cfg) now now' m)
     = update_delay (MAX_DELAY cfg) (MIN_DELAY cfg) (acceleration_ m)).
Proof.
  intros Hfit. destruct (delays_ordered cfg) as [H0 H1].
  destruct (update_delay_ends_and_order (MAX_DELAY cfg) (MIN_DELAY cfg)
              H0 H1 Hfit) as (E100 & E0 & Mono).
  split; [exact E100 |]. split; [exact E0 |]. split; [exact Mono |].
  intros now now' m. apply update_stores_delay.
Qed.

(** A run for C1 after [stop()] and [setSpeed(-128)]: three more setpoints
    and the ticks between. *)
Lemma ramp_in_range_one_step_no_overshoot_witness :
  let m := setSpeed (-128) (snd (stop (sample_motor true 30 70))) in
  speed_in_range (current_speed_ m) /\
  setpoint_stored m /\
  Forall
    (fun s =>
       speed_in_range (current_speed_ s) /\
       forall now now',
         let s' := update L298N.MIN_UPDATING_INTERVAL L298N.MAX_UPDATING_INTERVAL
                     now now' s in
         Z.abs (current_speed_ s' - current_speed_ s) <= 1 /\
         (due L298N.MIN_UPDATING_INTERVAL L298N.MAX_UPDATING_INTERVAL now s = false ->
          current_speed_ s' = current_speed_ s) /\
         (current_speed_ s <= setpoint_speed_ s ->
          current_speed_ s' <= setpoint_speed_ s') /\
         (setpoint_speed_ s <= current_speed_ s ->
          setpoint_speed_ s' <= current_speed_ s') /\
         Z.abs (setpoint_speed_ s' - current_speed_ s')
         <= Z.abs (setpoint_speed_ s - current_speed_ s))
    (states L298N.MIN_UPDATING_INTERVAL L298N.MAX_UPDATING_INTERVAL m
       [CallUpdate 200 200; CallSetSpeed 127; CallUpdate 250 251;
        CallUpdate 500 500; CallSetAcceleration 7; CallSetSpeed (-128);
        CallUpdate 90000 90001]).
Proof.
  cbv zeta.
  assert (Hc : speed_in_range
                 (current_speed_
                    (setSpeed (-128) (snd (stop (sample_motor true 30 70))))))
    by (unfold speed_in_range, MIN_SPEED, MAX_SPEED; cbn; lia).
  assert (Hst : setpoint_stored
                  (setSpeed (-128) (snd (stop (sample_motor true 30 70)))))
    by (left; exists (-128), (snd (stop (sample_motor true 30 70)));
        reflexivity).
  split; [exact Hc |]. split; [exact Hst |].
  exact (ramp_in_range_one_step_no_overshoot
           L298N.MIN_UPDATING_INTERVAL L298N.MAX_UPDATING_INTERVAL
           (setSpeed (-128) (snd (stop (sample_motor true 30 70)))) _ Hc Hst).
Defined.

(** C2, the counterexample: [stop()] in the middle of a ramp, where the
    last tick has set [status_]; the speeds are both 0 afterwards and
    [isUpdating()] still returns true. *)
Lemma stop_leaves_isUpdating_true :
  let m' := snd (stop (sample_motor true 30 70)) in
  current_speed_ m' = 0 /\ setpoint_speed_ m' = 0 /\ isUpdating m' = true.
Proof. cbv zeta. repeat split. Qed.

(** C3, the counterexample, on states reached from a stopped motor 1000 ms
    after its last tick: right after [setSpeed(50)] the speeds differ and
    [isUpdating()] is false; after the 50th tick of the ramp the speeds are
    equal and [isUpdating()] is true; and right after a [stop()] in the
    middle of that ramp the speeds are equal and [isUpdating()] is true. *)
Lemma isUpdating_differs_from_speed_comparison :
  let update := update L298N.MIN_UPDATING_INTERVAL L298N.MAX_UPDATING_INTERVAL in
  let ticks := ticks L298N.MIN_UPDATING_INTERVAL L298N.MAX_UPDATING_INTERVAL in
  let m0 := update 1000 1000 (snd (stop (sample_motor true 30 70))) in
  let m1 := setSpeed 50 m0 in
  let m2 := ticks m1 (clock_readings 50 1000 101) in
  let m3 := snd (stop (ticks m1 (clock_readings 20 1000 101))) in
  (isUpdating m1 = false /\ current_speed_ m1 <> setpoint_speed_ m1) /\
  (isUpdating m2 = true /\ current_speed_ m2 = setpoint_speed_ m2) /\
  (isUpdating m3 = true /\ current_speed_ m3 = setpoint_speed_ m3).
Proof.
  cbv zeta. repeat split; try (vm_compute; reflexivity).
  vm_compute. discriminate.
Qed.

(** An instance of C6: a maximum delay of 50000 and a minimum of 100. *)
Lemma update_delay_decreases_with_acceleration_witness :
  MAX_DELAY sample_delays <= 21474836 /\
  update_delay (MAX_DELAY sample_delays) (MIN_DELAY sample_delays) 100 = 100 /\
  update_delay (MAX_DELAY sample_delays) (MIN_DELAY sample_delays) 0 = 50000 /\
  (forall a b, 0 <= a -> a <= b -> b <= 100 ->
     update_delay (MAX_DELAY sample_delays) (MIN_DELAY sample_delays) b
     <= update_delay (MAX_DELAY sample_delays) (MIN_DELAY sample_delays) a).
Proof.
  assert (Hfit : MAX_DELAY sample_delays <= 21474836) by (cbn; lia).
  split; [exact Hfit |].
  destruct (update_delay_decreases_with_acceleration sample_delays Hfit)
    as (E100 & E0 & Mono & _).
  split; [exact E100 |]. split; [exact E0 | exact Mono].
Defined.

Example update_delay_at_both_ends :
  update_delay L298N.MIN_UPDATING_INTERVAL L298N.MAX_UPDATING_INTERVAL 100 = 100 /\
  update_delay L298N.MIN_UPDATING_INTERVAL L298N.MAX_UPDATING_INTERVAL 50 = 25050 /\
  update_delay L298N.MIN_UPDATING_INTERVAL L298N.MAX_UPDATING_INTERVAL 0 = 50000.
Proof. repeat split. Qed.

(** A run for C7: sixty ticks 101 ms apart at acceleration 100, where the
    delay is 100 ms; the speed is 50 and [isUpdating()] is false at the end. *)
Lemma ramp_reaches_50_after_50_ticks_witness :
  let m := sample_motor false 0 0 in
  let ts := clock_readings 60 0 101 in
  current_speed_ m = 0 /\
  qualifying L298N.MIN_UPDATING_INTERVAL L298N.MAX_UPDATING_INTERVAL
    (setSpeed 50 m) ts = true /\
  let m' := ticks L298N.MIN_UPDATING_INTERVAL L298N.MAX_UPDATING_INTERVAL
              (setSpeed 50 m) ts in
  current_speed_ m' = Z.min (Z.of_nat (length ts)) 50 /\
  (ts <> [] -> isUpdating m' = (Z.of_nat (length ts) <=? 50)).
Proof.
  cbv zeta.
  assert (Hc : current_speed_ (sample_motor false 0 0) = 0) by reflexivity.
  assert (Q : qualifying L298N.MIN_UPDATING_INTERVAL L298N.MAX_UPDATING_INTERVAL
                (setSpeed 50 (sample_motor false 0 0))
                (clock_readings 60 0 101) = true)
    by (vm_compute; reflexivity).
  split; [exact Hc |]. split; [exact Q |].
  exact (ramp_reaches_50_after_50_ticks
           L298N.MIN_UPDATING_INTERVAL L298N.MAX_UPDATING_INTERVAL
           (sample_motor false 0 0) (clock_readings 60 0 101) Hc Q).
Defined.

Example ramp_at_ticks_49_50_51 :
  let go n := ticks L298N.MIN_UPDATING_INTERVAL L298N.MAX_UPDATING_INTERVAL
                (setSpeed 50 (sample_motor false 0 0))
                (clock_readings n 0 101) in
  (current_speed_ (go 49%nat) = 49 /\ isUpdating (go 49%nat) = true) /\
  (current_speed_ (go 50%nat) = 50 /\ isUpdating (go 50%nat) = true) /\
  (current_speed_ (go 51%nat) = 50 /\ isUpdating (go 51%nat) = false).
Proof. cbv zeta. repeat split; vm_compute; reflexivity. Qed.

End MotorProofs.

(** * Properties of the sensor *)

Module SonarProofs.

Import Arduino Ultrasonic.

Section Measure.

Variable distance_of_pulse : Z -> Z.

#[local] Abbreviation computeDistance := (computeDistance distance_of_pulse).
#[local] Abbreviation update := (update distance_of_pulse).
#[local] Abbreviation call := (call distance_of_pulse).
#[local] Abbreviation run := (run distance_of_pulse).
#[local] Abbreviation states := (states distance_of_pulse).

(** *** One trigger/measure cycle *)

Lemma computeDistance_fields (r : Readings) (s : UltrasonicSensor) :
  mode_ (computeDistance r s) = mode_ s /\
  status_ (computeDistance r s) = status_ s /\
  distance_ (computeDistance r s) = distance_of_pulse (to_ulong (echo_us r)) /\
  measurements (pins (computeDistance r s)) = S (measurements (pins s)).
Proof.
  unfold Ultrasonic.computeDistance.
  cbn -[to_ulong Z.gtb].
  destruct (to_ulong (to_ulong (us_gate1 r) - last_us s) >? 2);
    cbn -[to_ulong Z.gtb];
    match goal with
    | |- context [if ?t then _ else _] => destruct t
    end; cbn; repeat split.
Qed.

Lemma computeDistance_ignores_status (b : bool) (r : Readings)
      (s : UltrasonicSensor) :
  computeDistance r (with_status b s) = with_status b (computeDistance r s).
Proof.
  unfold Ultrasonic.computeDistance.
  cbn -[to_ulong Z.gtb].
  destruct (to_ulong (to_ulong (us_gate1 r) - last_us s) >? 2);
    cbn -[to_ulong Z.gtb];
    match goal with
    | |- context [if ?t then _ else _] => destruct t
    end; reflexivity.
Qed.

(** *** [getDistance] *)

Lemma to_uint16_id (x : Z) : 0 <= x <= 65535 -> to_uint16 x = x.
Proof. unfold to_uint16. intros H. apply Z.mod_small. lia. Qed.

Lemma getDistance_value (s : UltrasonicSensor) :
  fst (getDistance s) = constrain (distance_ s) 0 400.
Proof.
  unfold getDistance. cbn [fst distance_ with_distance].
  apply to_uint16_id.
  unfold constrain.
  destruct (distance_ s <? 0) eqn:E1; [lia |].
  destruct (distance_ s >? 400) eqn:E2; lia.
Qed.

(** C4: whatever [distance_] holds, [getDistance()] returns a value in
    [0,400]: 400 for a distance above 400, 0 for a distance below 0 and the
    distance itself otherwise; so the distance computed from any echo
    pulse is reported clamped. *)
Theorem getDistance_in_sensor_range (s : UltrasonicSensor) :
  0 <= fst (getDistance s) <= 400 /\
  (400 < distance_ s -> fst (getDistance s) = 400) /\
  (distance_ s < 0 -> fst (getDistance s) = 0) /\
  (0 <= distance_ s <= 400 -> fst (getDistance s) = distance_ s) /\
  (forall r,
     let raw := distance_of_pulse (to_ulong (echo_us r)) in
     let reported := fst (getDistance (computeDistance r s)) in
     0 <= reported <= 400 /\
     (400 < raw -> reported = 400) /\
     (raw < 0 -> reported = 0)).
Proof.
  assert (G : forall d, 0 <= constrain d 0 400 <= 400 /\
                        (400 < d -> constrain d 0 400 = 400) /\
                        (d < 0 -> constrain d 0 400 = 0) /\
                        (0 <= d <= 400 -> constrain d 0 400 = d)).
  { intros d. unfold constrain.
    destruct (d <? 0) eqn:E1; [repeat split; lia |].
    destruct (d >? 400) eqn:E2; repeat split; lia. }
  rewrite getDistance_value.
  destruct (G (distance_ s)) as (G1 & G2 & G3 & G4).
  repeat split; try tauto; try lia.
  all: cbv zeta; rewrite getDistance_value;
    destruct (computeDistance_fields r s) as (_ & _ & -> & _);
    destruct (G (distance_of_pulse (to_ulong (echo_us r)))) as (K1 & K2 & K3 & _);
    try tauto; try lia.
Qed.

(** *** AUTOMATIC mode *)

Lemma update_automatic (r : Readings) (s : UltrasonicSensor) :
  mode_ s = AUTOMATIC -> update r s = computeDistance r s.
Proof. unfold Ultrasonic.update. intros ->. reflexivity. Qed.

Lemma call_automatic (c : Call) (s : UltrasonicSensor) :
  mode_ s = AUTOMATIC ->
  keeps_mode AUTOMATIC c = true ->
  mode_ (call s c) = AUTOMATIC /\
  status_ (call s c) = status_ s /\
  measurements (pins (call s c))
  = ((if is_update c then 1 else 0) + measurements (pins s))%nat.
Proof.
  intros A K. destruct c as [r | md | | |]; cbn [Ultrasonic.call is_update].
  - rewrite update_automatic by exact A.
    destruct (computeDistance_fields r s) as (-> & -> & _ & ->).
    repeat split. exact A.
  - destruct md; [discriminate K |]. repeat split.
  - unfold startMeasurement. rewrite A. cbn. repeat split. exact A.
  - repeat split. exact A.
  - cbn. repeat split. exact A.
Qed.

(** C5, as amended: in every run of calls that stays in AUTOMATIC mode,
    every [update()] is one trigger/measure cycle whatever [status_] holds,
    and no call changes [status_]: it keeps the value it had when the run
    began, so [isUpdating()] gates nothing in this mode. *)
Theorem automatic_update_always_measures (s : UltrasonicSensor) (cs : list Call) :
  mode_ s = AUTOMATIC ->
  forallb (keeps_mode AUTOMATIC) cs = true ->
  Forall
    (fun s' =>
       mode_ s' = AUTOMATIC /\
       status_ s' = status_ s /\
       forall b r,
         update r (with_status b s') = with_status b (computeDistance r s') /\
         measurements (pins (update r (with_status b s')))
         = S (measurements (pins s')))
    (states s cs) /\
  measurements (pins (run s cs))
  = (length (filter is_update cs) + measurements (pins s))%nat.
Proof.
  revert s. induction cs as [| c cs IH]; intros s A K.
  - cbn. split; [| reflexivity].
    constructor; [| constructor].
    split; [exact A |]. split; [reflexivity |].
    intros b r. rewrite update_automatic by exact A.
    split; [apply computeDistance_ignores_status |].
    destruct (computeDistance_fields r (with_status b s)) as (_ & _ & _ & ->).
    reflexivity.
  - cbn [forallb] in K. apply andb_prop in K. destruct K as [Kc K].
    destruct (call_automatic c s A Kc) as (A' & St & Me).
    destruct (IH (call s c) A' K) as [IH1 IH2].
    cbn [Ultrasonic.states Ultrasonic.run fold_left]. split.
    + constructor.
      * split; [exact A |]. split; [reflexivity |].
        intros b r. rewrite update_automatic by exact A.
        split; [apply computeDistance_ignores_status |].
        destruct (computeDistance_fields r (with_status b s)) as (_ & _ & _ & ->).
        reflexivity.
      * rewrite St in IH1. exact IH1.
    + unfold Ultrasonic.run in IH2. rewrite IH2, Me.
      cbn [filter]. destruct (is_update c); cbn [length]; lia.
Qed.

(** *** MANUAL mode *)

Lemma manual_update_measures_step (r : Readings) (s : UltrasonicSensor) :
  mode_ s = MANUAL ->
  update r s = (if status_ s then with_status false (computeDistance r s) else s) /\
  measurements (pins (update r s))
  = ((if status_ s then 1 else 0) + measurements (pins s))%nat /\
  status_ (update r s) = false.
Proof.
  intros M. unfold Ultrasonic.update. rewrite M. cbn [SonarMode_eqb].
  destruct (status_ s) eqn:E.
  - split; [reflexivity |].
    cbn [pins status_ with_status].
    destruct (computeDistance_fields r s) as (_ & _ & _ & ->).
    split; reflexivity.
  - split; [reflexivity |]. split; [reflexivity | exact E].
Qed.

(** C8: in MANUAL mode [update()] runs a trigger/measure cycle exactly when
    [status_] is true and leaves [status_] false; with [status_] false it
    changes nothing, so the distance is the one stored before and
    [isUpdating()] returns false. *)
Theorem manual_update_measures_iff_pending (r : Readings) (s : UltrasonicSensor) :
  mode_ s = MANUAL ->
  update r s = (if status_ s then with_status false (computeDistance r s) else s) /\
  measurements (pins (update r s))
  = ((if status_ s then 1 else 0) + measurements (pins s))%nat /\
  status_ (update r s) = false /\
  (status_ s = false ->
   update r s = s /\
   distance_ (update r s) = distance_ s /\
   isUpdating (update r s) = false).
Proof.
  intros M. unfold Ultrasonic.update. rewrite M. cbn [SonarMode_eqb].
  destruct (status_ s) eqn:E.
  - split; [reflexivity |].
    cbn [pins status_ with_status].
    destruct (computeDistance_fields r s) as (_ & _ & _ & ->).
    split; [reflexivity |]. split; [reflexivity |]. discriminate.
  - split; [reflexivity |]. split; [reflexivity |]. split; [exact E |].
    intros _. split; [reflexivity |]. split; [reflexivity | exact E].
Qed.

(** *** [startMeasurement] *)

(** C10: [startMeasurement()] in AUTOMATIC mode returns the object as it
    was; in MANUAL mode it sets [status_] and nothing else; so a call
    after which [isUpdating()] is true, when it was false before, was made
    in MANUAL mode. *)
Theorem startMeasurement_noop_unless_manual (s : UltrasonicSensor) :
  startMeasurement s
  = match mode_ s with
    | AUTOMATIC => s
    | MANUAL => with_status true s
    end /\
  mode_ (startMeasurement s) = mode_ s /\
  distance_ (startMeasurement s) = distance_ s /\
  pins (startMeasurement s) = pins s /\
  isUpdating (startMeasurement s)
  = match mode_ s with
    | AUTOMATIC => isUpdating s
    | MANUAL => true
    end.
Proof.
  unfold startMeasurement.
  destruct (mode_ s) eqn:E; cbn; rewrite ?E; repeat split.
Qed.

End Measure.

(** 500 is reported as 400 and -10 as 0. *)
Example getDistance_500_and_minus_10 :
  fst (getDistance (sample_sensor MANUAL false 500)) = 400 /\
  fst (getDistance (sample_sensor MANUAL false (-10))) = 0 /\
  fst (getDistance (sample_sensor MANUAL false 123)) = 123 /\
  fst (getDistance
         (Ultrasonic.update sample_distance_of_pulse (sample_readings 29155)
            (sample_sensor AUTOMATIC false 0))) = 400.
Proof. repeat split. Qed.

(** C5, the counterexample: [startMeasurement()] in MANUAL mode, then
    [setMode(AUTOMATIC)]; the mode is AUTOMATIC and [isUpdating()] returns
    true, also after two [update()] calls. *)
Lemma automatic_mode_status_stays_true :
  let s1 := setMode AUTOMATIC (startMeasurement (sample_sensor MANUAL false 0)) in
  let s2 := Ultrasonic.update sample_distance_of_pulse (sample_readings 5831) s1 in
  let s3 := Ultrasonic.update sample_distance_of_pulse (sample_readings 5831) s2 in
  (mode_ s1 = AUTOMATIC /\ isUpdating s1 = true) /\
  (mode_ s2 = AUTOMATIC /\ isUpdating s2 = true) /\
  (mode_ s3 = AUTOMATIC /\ isUpdating s3 = true /\
   measurements (pins s3) = 2%nat).
Proof. cbv zeta. repeat split. Qed.

(** A run for the amended C5: entered with [status_] true, three updates
    among other calls. *)
Lemma automatic_update_always_measures_witness :
  let s := setMode AUTOMATIC (startMeasurement (sample_sensor MANUAL false 0)) in
  let cs := [CallUpdate (sample_readings 5831); CallStartMeasurement;
             CallUpdate (sample_readings 100); CallGetDistance;
             CallSetMode AUTOMATIC; CallIsUpdating;
             CallUpdate (sample_readings 40000)] in
  mode_ s = AUTOMATIC /\
  forallb (keeps_mode AUTOMATIC) cs = true /\
  (Forall
     (fun s' =>
        mode_ s' = AUTOMATIC /\
        status_ s' = status_ s /\
        forall b r,
          Ultrasonic.update sample_distance_of_pulse r (with_status b s')
          = with_status b (computeDistance sample_distance_of_pulse r s') /\
          measurements
            (pins (Ultrasonic.update sample_distance_of_pulse r (with_status b s')))
          = S (measurements (pins s')))
     (states sample_distance_of_pulse s cs) /\
   measurements (pins (run sample_distance_of_pulse s cs))
   = (length (filter is_update cs) + measurements (pins s))%nat).
Proof.
  cbv zeta. split; [reflexivity |]. split; [reflexivity |].
  apply (automatic_update_always_measures sample_distance_of_pulse);
    reflexivity.
Defined.

(** Two calls for C8: one with a measurement pending, one without. *)
Lemma manual_update_measures_iff_pending_witness :
  let pending := sample_sensor MANUAL true 17 in
  let idle := sample_sensor MANUAL false 17 in
  let r := sample_readings 5831 in
  (mode_ pending = MANUAL /\
   distance_ (Ultrasonic.update sample_distance_of_pulse r pending) = 100 /\
   status_ (Ultrasonic.update sample_distance_of_pulse r pending) = false) /\
  (mode_ idle = MANUAL /\
   Ultrasonic.update sample_distance_of_pulse r idle = idle).
Proof.
  cbv zeta. split.
  - split; [reflexivity |].
    destruct (manual_update_measures_iff_pending sample_distance_of_pulse
                (sample_readings 5831) (sample_sensor MANUAL true 17) eq_refl)
      as (E & _ & St & _).
    split; [rewrite E; vm_compute; reflexivity | exact St].
  - split; [reflexivity |].
    destruct (manual_update_measures_iff_pending sample_distance_of_pulse
                (sample_readings 5831) (sample_sensor MANUAL false 17) eq_refl)
      as (_ & _ & _ & K).
    destruct (K eq_refl) as (E & _). exact E.
Defined.

End SonarProofs.

(** * Further properties of the motor *)

Module MotorExtras.

Import Arduino DcMotor MotorProofs.

Lemma to_ulong_id (x : Z) : 0 <= x < 4294967296 -> to_ulong x = x.
Proof. unfold to_ulong. intros H. apply Z.mod_small. exact H. Qed.

Lemma to_uint8_id (x : Z) : 0 <= x <= 255 -> to_uint8 x = x.
Proof. unfold to_uint8. intros H. apply Z.mod_small. lia. Qed.

(** *** The setters *)

(** X1: [setSpeed] saturates: an [int8_t] argument below -100 is stored as
    -100, one above 100 as 100, any other as it is; and nothing but
    [setpoint_speed_] changes, so the motor does not move before a tick. *)
Theorem setSpeed_saturates (v : Z) (m : Motor) :
  is_int8 v ->
  setpoint_speed_ (setSpeed v m) = Z.max (-100) (Z.min 100 v) /\
  setSpeed v m = with_setpoint_speed (Z.max (-100) (Z.min 100 v)) m /\
  current_speed_ (setSpeed v m) = current_speed_ m /\
  forwardPwm (setSpeed v m) = forwardPwm m /\
  backwardPwm (setSpeed v m) = backwardPwm m.
Proof.
  intros Hv.
  assert (E : to_int8 (constrain (to_int8 v) MIN_SPEED MAX_SPEED)
              = Z.max (-100) (Z.min 100 v)).
  { rewrite (to_int8_id v Hv).
    pose proof (constrain_bounds v MIN_SPEED MAX_SPEED) as B.
    rewrite to_int8_id
      by (unfold is_int8, MIN_SPEED, MAX_SPEED in *; lia).
    unfold constrain, MIN_SPEED, MAX_SPEED.
    destruct (v <? -100) eqn:E1; [lia |].
    destruct (v >? 100) eqn:E2; lia. }
  unfold setSpeed. rewrite E. repeat split.
Qed.

Lemma setSpeed_saturates_witness :
  is_int8 (-128) /\
  setpoint_speed_ (setSpeed (-128) (sample_motor false 0 0)) = -100.
Proof.
  assert (H : is_int8 (-128)) by (unfold is_int8; lia).
  split; [exact H |].
  exact (proj1 (setSpeed_saturates (-128) (sample_motor false 0 0) H)).
Defined.

Section Ramp.

Variables MIN_UPDATE_DELAY MAX_UPDATE_DELAY : Z.

#[local] Abbreviation update_delay := (update_delay MIN_UPDATE_DELAY MAX_UPDATE_DELAY).
#[local] Abbreviation due := (due MIN_UPDATE_DELAY MAX_UPDATE_DELAY).
#[local] Abbreviation update := (update MIN_UPDATE_DELAY MAX_UPDATE_DELAY).
#[local] Abbreviation call := (call MIN_UPDATE_DELAY MAX_UPDATE_DELAY).
#[local] Abbreviation run := (run MIN_UPDATE_DELAY MAX_UPDATE_DELAY).
#[local] Abbreviation states := (states MIN_UPDATE_DELAY MAX_UPDATE_DELAY).
#[local] Abbreviation ticks := (ticks MIN_UPDATE_DELAY MAX_UPDATE_DELAY).
#[local] Abbreviation qualifying := (qualifying MIN_UPDATE_DELAY MAX_UPDATE_DELAY).

(** X2: [setAcceleration] saturates at 100, and the delay of the next tick
    then lies between the two configured delays, so that its conversion to
    [unsigned long] in the comparison of [update] changes nothing. *)
Theorem setAcceleration_bounds_delay (a : Z) (m : Motor) :
  0 <= MAX_UPDATE_DELAY -> MAX_UPDATE_DELAY <= MIN_UPDATE_DELAY ->
  MIN_UPDATE_DELAY <= 21474836 ->
  0 <= a <= 255 ->
  acceleration_ (setAcceleration a m) = Z.min a 100 /\
  MAX_UPDATE_DELAY
  <= update_delay (acceleration_ (setAcceleration a m))
  <= MIN_UPDATE_DELAY /\
  to_ulong (update_delay (acceleration_ (setAcceleration a m)))
  = update_delay (acceleration_ (setAcceleration a m)).
Proof.
  intros H0 H1 H2 Ha.
  assert (E : acceleration_ (setAcceleration a m) = Z.min a 100).
  { unfold setAcceleration. cbn [acceleration_ with_acceleration].
    rewrite (to_uint8_id a) by lia.
    unfold constrain, MIN_ACCELERATION, MAX_ACCELERATION.
    destruct (a <? 0) eqn:E1; [lia |].
    destruct (a >? 100) eqn:E2; rewrite to_uint8_id; lia. }
  rewrite E.
  destruct (MotorProofs.update_delay_linear MIN_UPDATE_DELAY MAX_UPDATE_DELAY
              (Z.min a 100) H0 H1 H2 ltac:(lia)) as [L B].
  split; [reflexivity |].
  split; [rewrite L; lia |].
  apply to_ulong_id. rewrite L. lia.
Qed.

(** *** The time gate *)

Lemma update_due_last_ms (now now' : Z) (m : Motor) :
  due now m = true ->
  last_ms (update now now' m) = to_ulong now' /\
  acceleration_ (update now now' m) = acceleration_ m.
Proof.
  intros D. rewrite (MotorProofs.update_due _ _ now now' m D).
  unfold drive_pins, ramp_step.
  cbn -[to_ulong Z.ltb Z.gtb Z.eqb to_int8 abs].
  repeat match goal with
         | |- context [if ?t then _ else _] =>
             destruct t; cbn -[to_ulong Z.ltb Z.gtb Z.eqb to_int8 abs]
         end; split; reflexivity.
Qed.

Lemma gate_after (l e d : Z) (m : Motor) :
  last_ms m = l -> update_delay (acceleration_ m) = d ->
  0 <= e < 4294967296 -> 0 <= d < 4294967296 ->
  due (l + e) m = (e >? d).
Proof.
  intros El Ed He Hd.
  unfold DcMotor.due, interval_elapsed.
  cbn [last_ms update_delay_ with_update_delay].
  rewrite El, Ed. unfold to_ulong.
  rewrite Zminus_mod_idemp_l.
  replace (l + e - l) with e by lia.
  rewrite (Z.mod_small e), (Z.mod_small d) by lia. reflexivity.
Qed.

(** X3: The gate measures elapsed time across the wrap of [millis()]: a call
    made [e] ms after the clock value in [last_ms] finds the interval
    elapsed exactly when [e] exceeds the delay, whatever the clock shows.
    After a tick that stored the reading [now'], a call no more than the
    delay later is not due and leaves the speed alone: two steps are always
    more than the delay apart. *)
Theorem gate_counts_elapsed_across_wrap (m : Motor) (e : Z) :
  0 <= e < 4294967296 ->
  0 <= update_delay (acceleration_ m) < 4294967296 ->
  due (last_ms m + e) m = (e >? update_delay (acceleration_ m)) /\
  (forall now now',
     due now m = true ->
     let m' := update now now' m in
     due (now' + e) m' = (e >? update_delay (acceleration_ m)) /\
     (e <= update_delay (acceleration_ m) ->
      forall now'',
        current_speed_ (update (now' + e) now'' m') = current_speed_ m')).
Proof.
  intros He Hd. split.
  - apply gate_after; [reflexivity | reflexivity | exact He | exact Hd].
  - intros now now' D m'. subst m'.
    destruct (update_due_last_ms now now' m D) as [El Ea].
    assert (G : due (now' + e) (update now now' m)
                = (e >? update_delay (acceleration_ m))).
    { unfold DcMotor.due, interval_elapsed.
      cbn [last_ms update_delay_ with_update_delay].
      rewrite El, Ea. unfold to_ulong.
      rewrite Zminus_mod_idemp_r, Zminus_mod_idemp_l.
      replace (now' + e - now') with e by lia.
      rewrite (Z.mod_small e), (Z.mod_small (update_delay (acceleration_ m)))
        by lia.
      reflexivity. }
    split; [exact G |].
    intros Hle now''.
    rewrite (MotorProofs.update_not_due _ _ (now' + e) now'' (update now now' m)).
    + reflexivity.
    + rewrite G, Z.gtb_ltb. apply Z.ltb_ge. exact Hle.
Qed.

(** *** Ramps in both directions *)

Lemma one_step_closer (c sp n : Z) :
  0 <= n ->
  let c1 := c + Z.sgn (sp - c) in
  c1 + Z.sgn (sp - c1) * Z.min n (Z.abs (sp - c1))
  = c + Z.sgn (sp - c) * Z.min (n + 1) (Z.abs (sp - c)) /\
  (sp <> c -> Z.abs (sp - c1) = Z.abs (sp - c) - 1) /\
  (sp = c -> c1 = c).
Proof.
  intros Hn c1. subst c1.
  destruct (Z.lt_trichotomy sp c) as [L | [E | G]].
  - rewrite (Z.sgn_neg (sp - c)) by lia.
    destruct (Z.eq_dec sp (c - 1)) as [E1 | N1].
    + assert (S0 : Z.sgn (sp - (c + -1)) = 0) by (apply Z.sgn_null_iff; lia).
      rewrite S0. lia.
    + rewrite (Z.sgn_neg (sp - (c + -1))) by lia. lia.
  - assert (S0 : Z.sgn (sp - c) = 0) by (apply Z.sgn_null_iff; lia).
    rewrite S0, Z.add_0_r, S0. lia.
  - rewrite (Z.sgn_pos (sp - c)) by lia.
    destruct (Z.eq_dec sp (c + 1)) as [E1 | N1].
    + assert (S0 : Z.sgn (sp - (c + 1)) = 0) by (apply Z.sgn_null_iff; lia).
      rewrite S0. lia.
    + rewrite (Z.sgn_pos (sp - (c + 1))) by lia. lia.
Qed.

Lemma one_step_int8 (c sp : Z) :
  is_int8 c -> is_int8 sp -> is_int8 (c + Z.sgn (sp - c)).
Proof.
  unfold is_int8. intros Hc Hs.
  destruct (sgn_step_between c sp (-128) 127 Hc Hs) as [H _]. exact H.
Qed.

Lemma qualifying_ticks_move (m : Motor) (ts : list (Z * Z)) :
  is_int8 (current_speed_ m) ->
  is_int8 (setpoint_speed_ m) ->
  qualifying m ts = true ->
  let c := current_speed_ m in
  let sp := setpoint_speed_ m in
  let n := Z.of_nat (length ts) in
  current_speed_ (ticks m ts) = c + Z.sgn (sp - c) * Z.min n (Z.abs (sp - c)) /\
  setpoint_speed_ (ticks m ts) = sp /\
  (Z.abs (sp - c) <= n -> current_speed_ (ticks m ts) = sp) /\
  (ts <> [] -> isUpdating (ticks m ts) = (n <=? Z.abs (sp - c))).
Proof.
  cbv zeta. revert m.
  induction ts as [| [now now'] ts IH]; intros m Hc Hs Q.
  - cbn [DcMotor.ticks length Z.of_nat].
    split; [rewrite Z.min_l by lia; lia |].
    split; [reflexivity |].
    split; [lia | congruence].
  - cbn [DcMotor.qualifying] in Q. apply andb_prop in Q. destruct Q as [D Q].
    cbn [DcMotor.ticks].
    pose proof (MotorProofs.update_current MIN_UPDATE_DELAY MAX_UPDATE_DELAY
                  now now' m Hc Hs) as Ec.
    pose proof (MotorProofs.update_setpoint MIN_UPDATE_DELAY MAX_UPDATE_DELAY
                  now now' m) as Es.
    pose proof (MotorProofs.update_status MIN_UPDATE_DELAY MAX_UPDATE_DELAY
                  now now' m) as Et.
    rewrite D in Ec, Et.
    destruct (IH (update now now' m)) as (I1 & I2 & I3 & I4).
    + rewrite Ec. apply one_step_int8; assumption.
    + rewrite Es. exact Hs.
    + exact Q.
    + rewrite Ec, Es in I1, I3, I4. rewrite Es in I2.
      destruct (one_step_closer (current_speed_ m) (setpoint_speed_ m)
                  (Z.of_nat (length ts)) ltac:(lia)) as (S1 & S2 & S3).
      cbv zeta in S1, S2, S3.
      assert (Hlen : Z.of_nat (length ((now, now') :: ts))
                     = Z.of_nat (length ts) + 1)
        by (cbn [length]; lia).
      rewrite Hlen.
      assert (R1 : current_speed_ (ticks (update now now' m) ts)
                   = current_speed_ m
                     + Z.sgn (setpoint_speed_ m - current_speed_ m)
                       * Z.min (Z.of_nat (length ts) + 1)
                               (Z.abs (setpoint_speed_ m - current_speed_ m)))
        by (rewrite I1; exact S1).
      split; [exact R1 |]. split; [exact I2 |]. split.
      * intros Hd. rewrite R1. rewrite Z.min_r by exact Hd.
        destruct (Z.lt_trichotomy (setpoint_speed_ m) (current_speed_ m))
          as [L | [E | G]].
        -- rewrite Z.sgn_neg by lia. lia.
        -- rewrite E, Z.sub_diag. cbn. lia.
        -- rewrite Z.sgn_pos by lia. lia.
      * intros _. destruct ts as [| t ts'].
        -- cbn [DcMotor.ticks length Z.of_nat Z.add]. unfold isUpdating.
           rewrite Et.
           destruct (Z.eqb_spec (setpoint_speed_ m) (current_speed_ m));
             cbn [negb]; symmetry; [apply Z.leb_gt | apply Z.leb_le]; lia.
        -- unfold isUpdating in *. rewrite I4 by discriminate.
           destruct (Z.eq_dec (setpoint_speed_ m) (current_speed_ m)) as [E | N].
           ++ rewrite (S3 E), E, Z.sub_diag. cbn [Z.abs length].
              transitivity false; [| symmetry]; apply Z.leb_gt; lia.
           ++ rewrite (S2 N).
              destruct (Z.leb_spec (Z.of_nat (length (t :: ts')))
                          (Z.abs (setpoint_speed_ m - current_speed_ m) - 1));
                symmetry; [apply Z.leb_le | apply Z.leb_gt]; lia.
Qed.

(** X4: From any pair of [int8_t] speeds, [n] ticks that each find the
    interval elapsed move [current_speed_] by min(n, distance) toward
    [setpoint_speed_], up or down: the setpoint is reached after exactly
    as many ticks as the speeds were apart and held from then on, and
    [isUpdating()] is true after each of those ticks and false after every
    later one. *)
Theorem ramp_converges_in_distance_ticks (m : Motor) (ts : list (Z * Z)) :
  is_int8 (current_speed_ m) ->
  is_int8 (setpoint_speed_ m) ->
  qualifying m ts = true ->
  let c := current_speed_ m in
  let sp := setpoint_speed_ m in
  let n := Z.of_nat (length ts) in
  current_speed_ (ticks m ts) = c + Z.sgn (sp - c) * Z.min n (Z.abs (sp - c)) /\
  setpoint_speed_ (ticks m ts) = sp /\
  (Z.abs (sp - c) <= n -> current_speed_ (ticks m ts) = sp) /\
  (ts <> [] -> isUpdating (ticks m ts) = (n <=? Z.abs (sp - c))).
Proof.
  intros Hc Hs Q. exact (qualifying_ticks_move m ts Hc Hs Q).
Qed.

(** *** Polling at a fixed period *)

Lemma gate_after_reading (l e d : Z) (m : Motor) :
  last_ms m = to_ulong l -> update_delay (acceleration_ m) = d ->
  0 <= e < 4294967296 -> 0 <= d < 4294967296 ->
  due (l + e) m = (e >? d).
Proof.
  intros El Ed He Hd.
  unfold DcMotor.due, interval_elapsed.
  cbn [last_ms update_delay_ with_update_delay].
  rewrite El, Ed. unfold to_ulong.
  rewrite Zminus_mod_idemp_r, Zminus_mod_idemp_l.
  replace (l + e - l) with e by lia.
  rewrite (Z.mod_small e), (Z.mod_small d) by lia. reflexivity.
Qed.

Lemma polls_length (from step : Z) (drifts : list Z) :
  length (polls from step drifts) = length drifts.
Proof.
  revert from. induction drifts as [| d ds IH]; intros from; cbn;
    [reflexivity | rewrite IH; reflexivity].
Qed.

Lemma polls_qualify (drift step : Z) (drifts : list Z) (from d0 : Z)
      (m : Motor) :
  last_ms m = to_ulong (from + d0) -> 0 <= d0 <= drift ->
  Forall (fun d => 0 <= d <= drift) drifts ->
  0 <= update_delay (acceleration_ m) ->
  update_delay (acceleration_ m) + drift < step -> step < 4294967296 ->
  qualifying m (polls from step drifts) = true.
Proof.
  revert from d0 m.
  induction drifts as [| d ds IH]; intros from d0 m El Hd0 Hds H0 Hd Hs.
  - reflexivity.
  - cbn [polls DcMotor.qualifying].
    inversion Hds as [| d' ds' Hdd Hds']; subst.
    assert (D : due (from + step) m = true).
    { replace (from + step) with (from + d0 + (step - d0)) by lia.
      rewrite (gate_after_reading (from + d0) (step - d0)
                 (update_delay (acceleration_ m)) m El eq_refl) by lia.
      rewrite Z.gtb_ltb. apply Z.ltb_lt. lia. }
    rewrite D. cbn [andb].
    destruct (update_due_last_ms (from + step) (from + step + d) m D)
      as [El' Ea].
    apply (IH (from + step) d); try assumption; rewrite Ea; assumption.
Qed.

(** X5: One [Motor] polled alone at a fixed period, so that no other call
    moves the static [last_ms] in between: when the period is longer than
    the delay plus the time the clock may advance between the two reads of
    [millis()] in a call, and shorter than the range of the clock, every
    [update()] finds the interval elapsed, and after [n] polls the speed
    has moved min(n, distance) toward the setpoint.  A poll that reads the
    clock no more than the delay after the stored reading is not due. *)
Theorem polling_slower_than_delay_steps_every_poll
        (m : Motor) (from step drift d0 : Z) (drifts : list Z) :
  last_ms m = to_ulong (from + d0) -> 0 <= d0 <= drift ->
  Forall (fun d => 0 <= d <= drift) drifts ->
  0 <= update_delay (acceleration_ m) ->
  update_delay (acceleration_ m) + drift < step -> step < 4294967296 ->
  is_int8 (current_speed_ m) -> is_int8 (setpoint_speed_ m) ->
  let c := current_speed_ m in
  let sp := setpoint_speed_ m in
  qualifying m (polls from step drifts) = true /\
  current_speed_ (ticks m (polls from step drifts))
  = c + Z.sgn (sp - c) * Z.min (Z.of_nat (length drifts)) (Z.abs (sp - c)) /\
  (forall e, 0 <= e <= update_delay (acceleration_ m) ->
             due (from + d0 + e) m = false).
Proof.
  intros El Hd0 Hds H0 Hd Hs Hc Hsp. cbv zeta.
  pose proof (polls_qualify drift step drifts from d0 m El Hd0 Hds H0 Hd Hs)
    as Q.
  split; [exact Q |]. split.
  - destruct (qualifying_ticks_move m (polls from step drifts) Hc Hsp Q)
      as (E & _).
    rewrite polls_length in E. exact E.
  - intros e He.
    rewrite (gate_after_reading (from + d0) e
               (update_delay (acceleration_ m)) m El eq_refl) by lia.
    rewrite Z.gtb_ltb. apply Z.ltb_ge. lia.
Qed.

(** *** Two objects and the one static *)

(** X17: [last_ms] is shared by all objects of the class: when [update()]
    on one object finds its interval elapsed and stores the clock, an
    [update()] on another object that reads the clock no more than its own
    delay later is not due; it changes neither its speed, its flag nor its
    outputs, and the static keeps the reading of the first call. *)
Theorem second_motor_waits_after_first_steps
        (a b : Motor) (shared t t' e u' : Z) :
  due t (with_last_ms shared a) = true ->
  0 <= e <= update_delay (acceleration_ b) ->
  update_delay (acceleration_ b) < 4294967296 ->
  let ra := update_shared MIN_UPDATE_DELAY MAX_UPDATE_DELAY t t' shared a in
  let rb := update_shared MIN_UPDATE_DELAY MAX_UPDATE_DELAY
              (t' + e) u' (fst ra) b in
  fst ra = to_ulong t' /\
  fst rb = to_ulong t' /\
  current_speed_ (snd rb) = current_speed_ b /\
  isUpdating (snd rb) = isUpdating b /\
  forwardPwm (snd rb) = forwardPwm b /\
  backwardPwm (snd rb) = backwardPwm b.
Proof.
  intros Da He Hd. cbv zeta. unfold DcMotor.update_shared. cbn [fst snd].
  destruct (update_due_last_ms t t' (with_last_ms shared a) Da) as [El _].
  rewrite El.
  assert (Db : due (t' + e) (with_last_ms (to_ulong t') b) = false).
  { rewrite (gate_after_reading t' e (update_delay (acceleration_ b))
               (with_last_ms (to_ulong t') b) eq_refl eq_refl) by lia.
    rewrite Z.gtb_ltb. apply Z.ltb_ge. lia. }
  rewrite (MotorProofs.update_not_due _ _ (t' + e) u' _ Db).
  repeat split.
Qed.

(** *** The duty cycles *)

Lemma drive_pins_matches (m : Motor) : pwm_matches_speed (drive_pins m).
Proof.
  unfold pwm_matches_speed, drive_pins.
  destruct (current_speed_ m <? 0) eqn:E;
    cbn [forwardPwm backwardPwm current_speed_ with_pwm pulse_perc pwm_duty].
  - unfold abs. destruct (current_speed_ m >? 0) eqn:G; lia.
  - lia.
Qed.

Lemma call_keeps_pwm_matching (c : Call) (m : Motor) :
  pwm_matches_speed m -> pwm_matches_speed (call m c).
Proof.
  intros H. destruct c as [v | a | now now']; cbn [DcMotor.call].
  - exact H.
  - exact H.
  - destruct (due now m) eqn:D.
    + rewrite (MotorProofs.update_due _ _ now now' m D).
      apply drive_pins_matches.
    + rewrite (MotorProofs.update_not_due _ _ now now' m D). exact H.
Qed.

(** X6: Every tick that finds the interval elapsed writes both duty cycles
    from the speed it has just computed; and in a run of [setSpeed],
    [setAcceleration] and [update] calls that begins with duty cycles that
    agree with a speed in [-100,100], they agree with [current_speed_] in
    every state, lie in [0,100], and are never both above 0. *)
Theorem duty_cycles_follow_speed (m : Motor) (cs : list Call) :
  speed_in_range (current_speed_ m) ->
  speed_in_range (setpoint_speed_ m) ->
  pwm_matches_speed m ->
  Forall
    (fun s =>
       pwm_matches_speed s /\
       0 <= pwm_duty (forwardPwm s) <= 100 /\
       0 <= pwm_duty (backwardPwm s) <= 100 /\
       (pwm_duty (forwardPwm s) = 0 \/ pwm_duty (backwardPwm s) = 0) /\
       pwm_duty (forwardPwm s) - pwm_duty (backwardPwm s) = current_speed_ s)
    (states m cs) /\
  (forall m0 now now', due now m0 = true -> pwm_matches_speed (update now now' m0)).
Proof.
  intros Hc Hs Hp. split.
  - revert m Hc Hs Hp.
    assert (K : forall s, speed_in_range (current_speed_ s) ->
                          pwm_matches_speed s ->
                          pwm_matches_speed s /\
                          0 <= pwm_duty (forwardPwm s) <= 100 /\
                          0 <= pwm_duty (backwardPwm s) <= 100 /\
                          (pwm_duty (forwardPwm s) = 0 \/
                           pwm_duty (backwardPwm s) = 0) /\
                          pwm_duty (forwardPwm s) - pwm_duty (backwardPwm s)
                          = current_speed_ s).
    { intros s Hr [F B]. unfold speed_in_range, MIN_SPEED, MAX_SPEED in Hr.
      split; [split; assumption |]. rewrite F, B. lia. }
    induction cs as [| c cs IH]; intros m Hc Hs Hp; cbn [DcMotor.states].
    + constructor; [apply K; assumption | constructor].
    + constructor; [apply K; assumption |].
      destruct (MotorProofs.call_keeps_speeds_in_range
                  MIN_UPDATE_DELAY MAX_UPDATE_DELAY c m Hc Hs) as [Hc' Hs'].
      apply IH; [exact Hc' | exact Hs' |].
      apply call_keeps_pwm_matching. exact Hp.
  - intros m0 now now' D.
    rewrite (MotorProofs.update_due _ _ now now' m0 D).
    apply drive_pins_matches.
Qed.

(** *** After [stop] *)

Lemma call_keeps_rest (c : Call) (m : Motor) :
  is_setSpeed c = false ->
  current_speed_ m = 0 -> setpoint_speed_ m = 0 ->
  current_speed_ (call m c) = 0 /\ setpoint_speed_ (call m c) = 0.
Proof.
  intros N Hc Hs. destruct c as [v | a | now now']; cbn [DcMotor.call].
  - discriminate N.
  - split; assumption.
  - rewrite MotorProofs.update_setpoint.
    rewrite MotorProofs.update_current
      by (rewrite ?Hc, ?Hs; unfold is_int8; lia).
    rewrite Hc, Hs. destruct (due now m); split; reflexivity.
Qed.

Lemma states_keep_rest (cs : list Call) (m : Motor) :
  forallb (fun c => negb (is_setSpeed c)) cs = true ->
  current_speed_ m = 0 -> setpoint_speed_ m = 0 ->
  Forall (fun s => current_speed_ s = 0 /\ setpoint_speed_ s = 0) (states m cs).
Proof.
  revert m. induction cs as [| c cs IH]; intros m N Hc Hs; cbn [DcMotor.states].
  - constructor; [split; assumption | constructor].
  - cbn [forallb] in N. apply andb_prop in N. destruct N as [Nc N].
    apply negb_true_iff in Nc.
    constructor; [split; assumption |].
    destruct (call_keeps_rest c m Nc Hc Hs) as [Hc' Hs'].
    apply IH; assumption.
Qed.

(** X7: A stopped motor stays at rest until the next [setSpeed]: through any
    run of [update] and [setAcceleration] calls after [stop()] both speeds
    remain 0, and the first tick that finds the interval elapsed brings
    both duty cycles to 0 and [isUpdating()] to false. *)
Theorem stopped_motor_stays_at_rest (m : Motor) (cs : list Call) :
  forallb (fun c => negb (is_setSpeed c)) cs = true ->
  Forall
    (fun s =>
       current_speed_ s = 0 /\ setpoint_speed_ s = 0 /\
       forall now now',
         due now s = true ->
         pwm_duty (forwardPwm (update now now' s)) = 0 /\
         pwm_duty (backwardPwm (update now now' s)) = 0 /\
         isUpdating (update now now' s) = false)
    (states (snd (stop m)) cs).
Proof.
  intros N.
  pose proof (states_keep_rest cs (snd (stop m)) N eq_refl eq_refl) as F.
  eapply Forall_impl; [| exact F].
  intros s [Hc Hs]. split; [exact Hc |]. split; [exact Hs |].
  intros now now' D.
  assert (Hc' : current_speed_ (update now now' s) = 0).
  { rewrite MotorProofs.update_current
      by (rewrite ?Hc, ?Hs; unfold is_int8; lia).
    rewrite D, Hc, Hs. reflexivity. }
  assert (M : pwm_matches_speed (update now now' s)).
  { rewrite (MotorProofs.update_due _ _ now now' s D). apply drive_pins_matches. }
  destruct M as [F1 B1]. rewrite Hc' in F1, B1.
  split; [exact F1 |]. split; [exact B1 |].
  unfold isUpdating. rewrite MotorProofs.update_status, D, Hc, Hs. reflexivity.
Qed.

(** *** [init] *)

(** X8: [init()] restarts both outputs at 33 kHz with duty 0 and selects the
    fastest ramp, but writes neither speed nor the flag of [isUpdating]:
    the next tick that finds the interval elapsed steps from the old
    [current_speed_] toward the old [setpoint_speed_] and drives the
    outputs again.  After [stop()] the speeds are 0, so [stop()] followed
    by [init()] leaves an enabled motor at rest with both outputs at 0. *)
Theorem init_restarts_outputs_keeps_ramp (m : Motor) :
  let m1 := snd (init m) in
  (fst (init m) = true /\ enabled_ m1 = true /\
   acceleration_ m1 = MAX_ACCELERATION) /\
  (forwardPwm m1 = mkPwmOut true 33000 0 /\
   backwardPwm m1 = mkPwmOut true 33000 0) /\
  (current_speed_ m1 = current_speed_ m /\
   setpoint_speed_ m1 = setpoint_speed_ m /\
   isUpdating m1 = isUpdating m) /\
  (forall now now',
     is_int8 (current_speed_ m) -> is_int8 (setpoint_speed_ m) ->
     due now m1 = true ->
     current_speed_ (update now now' m1)
     = current_speed_ m + Z.sgn (setpoint_speed_ m - current_speed_ m) /\
     pwm_matches_speed (update now now' m1)) /\
  (let m2 := snd (init (snd (stop m))) in
   enabled_ m2 = true /\ current_speed_ m2 = 0 /\ setpoint_speed_ m2 = 0 /\
   pwm_matches_speed m2).
Proof.
  cbv zeta.
  split; [repeat split |]. split; [repeat split |]. split; [repeat split |].
  split; [| repeat split].
  intros now now' Hc Hs D. split.
  - rewrite MotorProofs.update_current by assumption.
    rewrite D. reflexivity.
  - rewrite (MotorProofs.update_due _ _ now now' _ D).
    apply drive_pins_matches.
Qed.

End Ramp.

Lemma setAcceleration_bounds_delay_witness :
  (0 <= L298N.MAX_UPDATING_INTERVAL /\
   L298N.MAX_UPDATING_INTERVAL <= L298N.MIN_UPDATING_INTERVAL /\
   L298N.MIN_UPDATING_INTERVAL <= 21474836 /\
   0 <= 200 <= 255) /\
  acceleration_ (setAcceleration 200 (sample_motor false 0 0)) = 100 /\
  update_delay L298N.MIN_UPDATING_INTERVAL L298N.MAX_UPDATING_INTERVAL
    (acceleration_ (setAcceleration 200 (sample_motor false 0 0))) = 100.
Proof.
  assert (H0 : 0 <= L298N.MAX_UPDATING_INTERVAL)
    by (unfold L298N.MAX_UPDATING_INTERVAL; lia).
  assert (H1 : L298N.MAX_UPDATING_INTERVAL <= L298N.MIN_UPDATING_INTERVAL)
    by (unfold L298N.MAX_UPDATING_INTERVAL, L298N.MIN_UPDATING_INTERVAL; lia).
  assert (H2 : L298N.MIN_UPDATING_INTERVAL <= 21474836)
    by (unfold L298N.MIN_UPDATING_INTERVAL; lia).
  assert (Ha : 0 <= 200 <= 255) by lia.
  split; [exact (conj H0 (conj H1 (conj H2 Ha))) |].
  destruct (setAcceleration_bounds_delay
              L298N.MIN_UPDATING_INTERVAL L298N.MAX_UPDATING_INTERVAL
              200 (sample_motor false 0 0) H0 H1 H2 Ha) as (E & _ & _).
  split; [exact E | reflexivity].
Defined.

(** A tick 500 ms after a [last_ms] that lies 296 ms before the wrap of the
    clock: the reading is 204 and the interval of 100 ms has elapsed. *)
Lemma gate_counts_elapsed_across_wrap_witness :
  let m := with_last_ms 4294967000 (sample_motor false 0 50) in
  (0 <= 500 < 4294967296 /\
   0 <= update_delay L298N.MIN_UPDATING_INTERVAL L298N.MAX_UPDATING_INTERVAL
          (acceleration_ m) < 4294967296) /\
  to_ulong (last_ms m + 500) = 204 /\
  due L298N.MIN_UPDATING_INTERVAL L298N.MAX_UPDATING_INTERVAL
      (last_ms m + 500) m = true.
Proof.
  cbv zeta.
  assert (He : 0 <= 500 < 4294967296) by lia.
  assert (Hd : 0 <= update_delay L298N.MIN_UPDATING_INTERVAL
                      L298N.MAX_UPDATING_INTERVAL
                      (acceleration_
                         (with_last_ms 4294967000 (sample_motor false 0 50)))
               < 4294967296)
    by (vm_compute; split; [discriminate | reflexivity]).
  split; [exact (conj He Hd) |]. split; [reflexivity |].
  exact (proj1 (gate_counts_elapsed_across_wrap
                  L298N.MIN_UPDATING_INTERVAL L298N.MAX_UPDATING_INTERVAL
                  (with_last_ms 4294967000 (sample_motor false 0 50))
                  500 He Hd)).
Defined.

(** A ramp down from 20 to -30 in sixty ticks. *)
Lemma ramp_converges_in_distance_ticks_witness :
  let m := sample_motor false 20 (-30) in
  let ts := clock_readings 60 0 101 in
  (is_int8 (current_speed_ m) /\ is_int8 (setpoint_speed_ m) /\
   qualifying L298N.MIN_UPDATING_INTERVAL L298N.MAX_UPDATING_INTERVAL m ts
   = true) /\
  current_speed_
    (ticks L298N.MIN_UPDATING_INTERVAL L298N.MAX_UPDATING_INTERVAL m ts) = -30.
Proof.
  cbv zeta.
  assert (Hc : is_int8 (current_speed_ (sample_motor false 20 (-30))))
    by (unfold is_int8; cbn; lia).
  assert (Hs : is_int8 (setpoint_speed_ (sample_motor false 20 (-30))))
    by (unfold is_int8; cbn; lia).
  assert (Q : qualifying L298N.MIN_UPDATING_INTERVAL L298N.MAX_UPDATING_INTERVAL
                (sample_motor false 20 (-30)) (clock_readings 60 0 101) = true)
    by (vm_compute; reflexivity).
  split; [exact (conj Hc (conj Hs Q)) |].
  pose proof (ramp_converges_in_distance_ticks
                L298N.MIN_UPDATING_INTERVAL L298N.MAX_UPDATING_INTERVAL
                (sample_motor false 20 (-30)) (clock_readings 60 0 101)
                Hc Hs Q) as H.
  cbv zeta in H. destruct H as (_ & _ & H & _).
  apply H. vm_compute. discriminate.
Defined.

(** Polls every 102 ms at acceleration 100, where the delay is 100 ms, with
    up to 1 ms between the two clock reads of a call: from -3 up to 2. *)
Lemma polling_slower_than_delay_steps_every_poll_witness :
  let m := sample_motor false (-3) 2 in
  let drifts := [1; 0; 1; 1; 0; 1] in
  (last_ms m = to_ulong (0 + 0) /\ 0 <= 0 <= 1 /\
   Forall (fun d => 0 <= d <= 1) drifts /\
   0 <= update_delay L298N.MIN_UPDATING_INTERVAL L298N.MAX_UPDATING_INTERVAL
          (acceleration_ m) /\
   update_delay L298N.MIN_UPDATING_INTERVAL L298N.MAX_UPDATING_INTERVAL
     (acceleration_ m) + 1 < 102 /\
   102 < 4294967296 /\
   is_int8 (current_speed_ m) /\ is_int8 (setpoint_speed_ m)) /\
  polls 0 102 drifts
  = [(102, 103); (204, 204); (306, 307); (408, 409); (510, 510); (612, 613)] /\
  current_speed_
    (ticks L298N.MIN_UPDATING_INTERVAL L298N.MAX_UPDATING_INTERVAL m
       (polls 0 102 drifts)) = 2.
Proof.
  cbv zeta.
  assert (El : last_ms (sample_motor false (-3) 2) = to_ulong (0 + 0))
    by reflexivity.
  assert (Hd0 : 0 <= 0 <= 1) by lia.
  assert (Hds : Forall (fun d => 0 <= d <= 1) [1; 0; 1; 1; 0; 1])
    by (repeat constructor; lia).
  assert (H0 : 0 <= update_delay L298N.MIN_UPDATING_INTERVAL
                      L298N.MAX_UPDATING_INTERVAL
                      (acceleration_ (sample_motor false (-3) 2)))
    by (vm_compute; discriminate).
  assert (Hd : update_delay L298N.MIN_UPDATING_INTERVAL
                 L298N.MAX_UPDATING_INTERVAL
                 (acceleration_ (sample_motor false (-3) 2)) + 1 < 102)
    by (vm_compute; reflexivity).
  assert (Hs : 102 < 4294967296) by lia.
  assert (Hc : is_int8 (current_speed_ (sample_motor false (-3) 2)))
    by (unfold is_int8; cbn; lia).
  assert (Hsp : is_int8 (setpoint_speed_ (sample_motor false (-3) 2)))
    by (unfold is_int8; cbn; lia).
  split;
    [exact (conj El (conj Hd0 (conj Hds (conj H0 (conj Hd (conj Hs
              (conj Hc Hsp))))))) |].
  split; [reflexivity |].
  pose proof (polling_slower_than_delay_steps_every_poll
                L298N.MIN_UPDATING_INTERVAL L298N.MAX_UPDATING_INTERVAL
                (sample_motor false (-3) 2) 0 102 1 0 [1; 0; 1; 1; 0; 1]
                El Hd0 Hds H0 Hd Hs Hc Hsp) as H.
  cbv zeta in H. destruct H as (_ & E & _).
  rewrite E. vm_compute. reflexivity.
Defined.

(** Two motors polled one after the other in the same millisecond, 1000 ms
    after the last step: the first steps, the second does not. *)
Lemma second_motor_waits_after_first_steps_witness :
  let a := sample_motor false 0 50 in
  let b := sample_motor false 0 (-50) in
  let ra := update_shared L298N.MIN_UPDATING_INTERVAL
              L298N.MAX_UPDATING_INTERVAL 1000 1000 0 a in
  let rb := update_shared L298N.MIN_UPDATING_INTERVAL
              L298N.MAX_UPDATING_INTERVAL (1000 + 0) 1000 (fst ra) b in
  (due L298N.MIN_UPDATING_INTERVAL L298N.MAX_UPDATING_INTERVAL 1000
       (with_last_ms 0 a) = true /\
   0 <= 0 <= update_delay L298N.MIN_UPDATING_INTERVAL
              L298N.MAX_UPDATING_INTERVAL (acceleration_ b) /\
   update_delay L298N.MIN_UPDATING_INTERVAL L298N.MAX_UPDATING_INTERVAL
     (acceleration_ b) < 4294967296) /\
  current_speed_ (snd ra) = 1 /\
  current_speed_ (snd rb) = current_speed_ b.
Proof.
  cbv zeta.
  assert (Da : due L298N.MIN_UPDATING_INTERVAL L298N.MAX_UPDATING_INTERVAL 1000
                 (with_last_ms 0 (sample_motor false 0 50)) = true)
    by (vm_compute; reflexivity).
  assert (He : 0 <= 0 <= update_delay L298N.MIN_UPDATING_INTERVAL
                          L298N.MAX_UPDATING_INTERVAL
                          (acceleration_ (sample_motor false 0 (-50))))
    by (vm_compute; split; discriminate).
  assert (Hd : update_delay L298N.MIN_UPDATING_INTERVAL
                 L298N.MAX_UPDATING_INTERVAL
                 (acceleration_ (sample_motor false 0 (-50))) < 4294967296)
    by (vm_compute; reflexivity).
  split; [exact (conj Da (conj He Hd)) |].
  split; [vm_compute; reflexivity |].
  pose proof (second_motor_waits_after_first_steps
                L298N.MIN_UPDATING_INTERVAL L298N.MAX_UPDATING_INTERVAL
                (sample_motor false 0 50) (sample_motor false 0 (-50))
                0 1000 1000 0 1000 Da He Hd) as H.
  cbv zeta in H. destruct H as (_ & _ & E & _). exact E.
Defined.

Lemma duty_cycles_follow_speed_witness :
  let m := sample_motor false 0 (-100) in
  (speed_in_range (current_speed_ m) /\ speed_in_range (setpoint_speed_ m) /\
   pwm_matches_speed m) /\
  Forall
    (fun s =>
       pwm_matches_speed s /\
       0 <= pwm_duty (forwardPwm s) <= 100 /\
       0 <= pwm_duty (backwardPwm s) <= 100 /\
       (pwm_duty (forwardPwm s) = 0 \/ pwm_duty (backwardPwm s) = 0) /\
       pwm_duty (forwardPwm s) - pwm_duty (backwardPwm s) = current_speed_ s)
    (states L298N.MIN_UPDATING_INTERVAL L298N.MAX_UPDATING_INTERVAL m
       [CallUpdate 200 200; CallUpdate 400 400; CallSetSpeed 127;
        CallUpdate 600 600; CallUpdate 800 800; CallUpdate 1000 1000]).
Proof.
  cbv zeta.
  assert (Hc : speed_in_range (current_speed_ (sample_motor false 0 (-100))))
    by (unfold speed_in_range, MIN_SPEED, MAX_SPEED; cbn; lia).
  assert (Hs : speed_in_range (setpoint_speed_ (sample_motor false 0 (-100))))
    by (unfold speed_in_range, MIN_SPEED, MAX_SPEED; cbn; lia).
  assert (Hp : pwm_matches_speed (sample_motor false 0 (-100)))
    by (split; reflexivity).
  split; [exact (conj Hc (conj Hs Hp)) |].
  exact (proj1 (duty_cycles_follow_speed
                  L298N.MIN_UPDATING_INTERVAL L298N.MAX_UPDATING_INTERVAL
                  (sample_motor false 0 (-100)) _ Hc Hs Hp)).
Defined.

Lemma stopped_motor_stays_at_rest_witness :
  let cs := [CallUpdate 50 50; CallSetAcceleration 10; CallUpdate 1000 1000;
             CallUpdate 60000 60000] in
  forallb (fun c => negb (is_setSpeed c)) cs = true /\
  Forall
    (fun s =>
       current_speed_ s = 0 /\ setpoint_speed_ s = 0 /\
       forall now now',
         due L298N.MIN_UPDATING_INTERVAL L298N.MAX_UPDATING_INTERVAL now s
         = true ->
         pwm_duty (forwardPwm
                     (update L298N.MIN_UPDATING_INTERVAL
                        L298N.MAX_UPDATING_INTERVAL now now' s)) = 0 /\
         pwm_duty (backwardPwm
                     (update L298N.MIN_UPDATING_INTERVAL
                        L298N.MAX_UPDATING_INTERVAL now now' s)) = 0 /\
         isUpdating (update L298N.MIN_UPDATING_INTERVAL
                       L298N.MAX_UPDATING_INTERVAL now now' s) = false)
    (states L298N.MIN_UPDATING_INTERVAL L298N.MAX_UPDATING_INTERVAL
       (snd (stop (sample_motor true 30 70))) cs).
Proof.
  cbv zeta. split; [reflexivity |].
  apply (stopped_motor_stays_at_rest
           L298N.MIN_UPDATING_INTERVAL L298N.MAX_UPDATING_INTERVAL
           (sample_motor true 30 70)).
  reflexivity.
Defined.

End MotorExtras.

(** * Further properties of the sensor *)

Module SonarExtras.

Import Arduino Ultrasonic SonarProofs.

Section Measure.

Variable distance_of_pulse : Z -> Z.

#[local] Abbreviation computeDistance := (computeDistance distance_of_pulse).
#[local] Abbreviation update := (update distance_of_pulse).
#[local] Abbreviation call := (call distance_of_pulse).
#[local] Abbreviation run := (run distance_of_pulse).
#[local] Abbreviation states := (states distance_of_pulse).

(** *** [getDistance] *)

(** X9: [getDistance()] overwrites the stored distance with the value it
    reports, so a second call reports the same value and changes nothing;
    mode, flag and pins are not touched. *)
Theorem getDistance_idempotent (s : UltrasonicSensor) :
  let s1 := snd (getDistance s) in
  distance_ s1 = fst (getDistance s) /\
  fst (getDistance s1) = fst (getDistance s) /\
  snd (getDistance s1) = s1 /\
  mode_ s1 = mode_ s /\ status_ s1 = status_ s /\ pins s1 = pins s.
Proof.
  cbv zeta.
  pose proof (SonarProofs.getDistance_value s) as V.
  assert (B : 0 <= constrain (distance_ s) 0 400 <= 400).
  { unfold constrain.
    destruct (distance_ s <? 0) eqn:E1; [lia |].
    destruct (distance_ s >? 400) eqn:E2; lia. }
  assert (I : constrain (constrain (distance_ s) 0 400) 0 400
              = constrain (distance_ s) 0 400).
  { unfold constrain at 1.
    destruct (constrain (distance_ s) 0 400 <? 0) eqn:E1; [lia |].
    destruct (constrain (distance_ s) 0 400 >? 400) eqn:E2; lia. }
  assert (D : distance_ (snd (getDistance s)) = constrain (distance_ s) 0 400)
    by reflexivity.
  split; [rewrite V; exact D |].
  split; [rewrite (SonarProofs.getDistance_value (snd (getDistance s))), D, V;
          exact I |].
  split; [| repeat split].
  unfold getDistance at 1. cbn [snd]. rewrite D, I.
  unfold getDistance, with_distance. reflexivity.
Qed.

(** *** MANUAL mode *)

Lemma startMeasurement_manual (s : UltrasonicSensor) :
  mode_ s = MANUAL -> startMeasurement s = with_status true s.
Proof. unfold startMeasurement. intros ->. reflexivity. Qed.

Lemma startMeasurement_iter_manual (k : nat) (s : UltrasonicSensor) :
  mode_ s = MANUAL ->
  Nat.iter (S k) startMeasurement s = with_status true s.
Proof.
  intros M. induction k as [| k IH].
  - cbn. apply startMeasurement_manual, M.
  - change (Nat.iter (S (S k)) startMeasurement s)
      with (startMeasurement (Nat.iter (S k) startMeasurement s)).
    rewrite IH. rewrite startMeasurement_manual by exact M. reflexivity.
Qed.

(** X10: Requests are not queued: in MANUAL mode any number of
    [startMeasurement()] calls, one or more, is served by one
    trigger/measure cycle at the next [update()], and the [update()] after
    that changes nothing. *)
Theorem manual_requests_are_not_queued (k : nat) (r1 r2 : Readings)
        (s : UltrasonicSensor) :
  mode_ s = MANUAL ->
  let s1 := Nat.iter (S k) startMeasurement s in
  isUpdating s1 = true /\
  update r1 s1 = with_status false (computeDistance r1 s) /\
  measurements (pins (update r1 s1)) = S (measurements (pins s)) /\
  isUpdating (update r1 s1) = false /\
  update r2 (update r1 s1) = update r1 s1.
Proof.
  intros M. cbv zeta. rewrite (startMeasurement_iter_manual k s M).
  assert (E : update r1 (with_status true s)
              = with_status false (computeDistance r1 s)).
  { unfold Ultrasonic.update. cbn [mode_ status_ with_status]. rewrite M.
    cbn [SonarMode_eqb].
    rewrite SonarProofs.computeDistance_ignores_status. reflexivity. }
  rewrite E.
  destruct (SonarProofs.computeDistance_fields distance_of_pulse r1 s)
    as (Hm & _ & _ & Hn).
  split; [reflexivity |]. split; [reflexivity |].
  split; [exact Hn |]. split; [reflexivity |].
  unfold Ultrasonic.update. cbn [mode_ status_ with_status].
  rewrite Hm, M. reflexivity.
Qed.

Lemma call_manual (c : Call) (s : UltrasonicSensor) :
  mode_ s = MANUAL ->
  keeps_mode MANUAL c = true ->
  mode_ (call s c) = MANUAL /\
  (measurements (pins (call s c)) + pending (call s c)
   <= measurements (pins s) + pending s
      + (if is_startMeasurement c then 1 else 0))%nat /\
  (measurements (pins s) <= measurements (pins (call s c)))%nat.
Proof.
  intros M K.
  destruct c as [r | md | | |];
    cbn [Ultrasonic.call is_startMeasurement].
  - destruct (SonarProofs.manual_update_measures_step distance_of_pulse r s M)
      as (E & Hn & Hs).
    rewrite Hn. unfold pending. rewrite Hs.
    split; [| destruct (status_ s); split; lia].
    rewrite E. destruct (status_ s); [| exact M].
    cbn [mode_ with_status].
    destruct (SonarProofs.computeDistance_fields distance_of_pulse r s)
      as (-> & _).
    exact M.
  - destruct md; [| discriminate K].
    unfold setMode, pending. cbn [mode_ pins status_ with_mode].
    split; [reflexivity | split; lia].
  - rewrite startMeasurement_manual by exact M. unfold pending.
    cbn [mode_ pins status_ with_status].
    split; [exact M |]. destruct (status_ s); split; lia.
  - split; [exact M | split; lia].
  - unfold getDistance, pending.
    cbn [snd mode_ pins status_ with_distance].
    split; [exact M | split; lia].
Qed.

(** X11: In a run of calls that stays in MANUAL mode the sensor never measures
    more often than it was asked to: the cycles made, plus the one still
    pending, are at most the requests of the run plus the one pending at
    its start; and the history of measurements only grows. *)
Theorem manual_measures_at_most_requests (s : UltrasonicSensor)
        (cs : list Call) :
  mode_ s = MANUAL ->
  forallb (keeps_mode MANUAL) cs = true ->
  (measurements (pins (run s cs)) + pending (run s cs)
   <= measurements (pins s) + pending s
      + length (filter is_startMeasurement cs))%nat /\
  (measurements (pins s) <= measurements (pins (run s cs)))%nat.
Proof.
  revert s. induction cs as [| c cs IH]; intros s M K.
  - cbn. lia.
  - cbn [forallb] in K. apply andb_prop in K. destruct K as [Kc K].
    destruct (call_manual c s M Kc) as (M' & B & G).
    destruct (IH (call s c) M' K) as [IH1 IH2].
    unfold Ultrasonic.run in *. cbn [fold_left filter].
    destruct (is_startMeasurement c); cbn [length]; lia.
Qed.

(** *** The pins *)

Lemma computeDistance_pins (r : Readings) (s : UltrasonicSensor) :
  trigger_pin_ (computeDistance r s) = trigger_pin_ s /\
  echo_pin_ (computeDistance r s) = echo_pin_ s /\
  pins (computeDistance r s)
  = PulseInLong (echo_pin_ s) HIGH
    :: (if pulse_elapsed r s then [DigitalWrite (trigger_pin_ s) LOW] else [])
    ++ (if settle_elapsed r s then [DigitalWrite (trigger_pin_ s) HIGH] else [])
    ++ DigitalWrite (trigger_pin_ s) LOW :: pins s.
Proof.
  unfold Ultrasonic.computeDistance, pulse_elapsed, settle_elapsed.
  cbn -[to_ulong Z.gtb].
  destruct (to_ulong (to_ulong (us_gate1 r) - last_us s) >? 2);
    cbn -[to_ulong Z.gtb];
    match goal with
    | |- context [if ?t then _ else _] => destruct t
    end; cbn; repeat split.
Qed.

(** X12: One cycle drives the trigger LOW, HIGH when more than 2 us have passed
    since [last_us], and LOW again only when more than 10 us have passed
    since then, before it waits for the echo.  So the trigger is left HIGH
    during the echo measurement exactly when the first condition held and
    the second did not, which is the case whenever the two clock readings
    after the rising edge are no more than 10 us apart. *)
Theorem trigger_level_during_echo (r : Readings) (s : UltrasonicSensor) :
  last_written (trigger_pin_ s) (pins (computeDistance r s))
  = Some (if settle_elapsed r s && negb (pulse_elapsed r s) then HIGH else LOW) /\
  (settle_elapsed r s = true ->
   to_ulong (to_ulong (us_gate2 r) - to_ulong (us_mark1 r)) <= 10 ->
   last_written (trigger_pin_ s) (pins (computeDistance r s)) = Some HIGH) /\
  (settle_elapsed r s = false ->
   last_written (trigger_pin_ s) (pins (computeDistance r s)) = Some LOW).
Proof.
  destruct (computeDistance_pins r s) as (_ & _ & P).
  assert (L : last_written (trigger_pin_ s) (pins (computeDistance r s))
              = Some (if settle_elapsed r s && negb (pulse_elapsed r s)
                      then HIGH else LOW)).
  { rewrite P.
    destruct (pulse_elapsed r s), (settle_elapsed r s);
      cbn [last_written app andb negb]; rewrite Z.eqb_refl; reflexivity. }
  split; [exact L |]. split.
  - intros G1 Hle. rewrite L, G1.
    assert (G2 : pulse_elapsed r s = false).
    { unfold pulse_elapsed. rewrite G1.
      rewrite Z.gtb_ltb. apply Z.ltb_ge. exact Hle. }
    rewrite G2. reflexivity.
  - intros G1. rewrite L, G1. reflexivity.
Qed.

Lemma call_keeps_wiring (c : Call) (s : UltrasonicSensor) :
  Forall (on_own_pins (trigger_pin_ s) (echo_pin_ s)) (pins s) ->
  trigger_pin_ (call s c) = trigger_pin_ s /\
  echo_pin_ (call s c) = echo_pin_ s /\
  Forall (on_own_pins (trigger_pin_ s) (echo_pin_ s)) (pins (call s c)).
Proof.
  intros W.
  assert (C : forall r,
             Forall (on_own_pins (trigger_pin_ s) (echo_pin_ s))
                    (pins (computeDistance r s))).
  { intros r. destruct (computeDistance_pins r s) as (_ & _ & ->).
    constructor; [cbn; split; reflexivity |].
    apply Forall_app. split.
    - destruct (pulse_elapsed r s); repeat constructor.
    - apply Forall_app. split.
      + destruct (settle_elapsed r s); repeat constructor.
      + constructor; [reflexivity | exact W]. }
  destruct c as [r | md | | |]; cbn [Ultrasonic.call].
  - unfold Ultrasonic.update.
    destruct (computeDistance_pins r s) as (T & E & _).
    destruct (SonarMode_eqb (mode_ s) AUTOMATIC).
    + split; [exact T |]. split; [exact E | apply C].
    + destruct (status_ s).
      * cbn [trigger_pin_ echo_pin_ pins with_status].
        split; [exact T |]. split; [exact E | apply C].
      * split; [reflexivity |]. split; [reflexivity | exact W].
  - split; [reflexivity |]. split; [reflexivity | exact W].
  - unfold startMeasurement.
    destruct (SonarMode_eqb (mode_ s) MANUAL);
      (split; [reflexivity |]; split; [reflexivity | exact W]).
  - split; [reflexivity |]. split; [reflexivity | exact W].
  - split; [reflexivity |]. split; [reflexivity | exact W].
Qed.

(** X13: Through every run of calls the object keeps its two pin numbers, only
    ever writes its trigger pin and only ever waits for HIGH on its echo
    pin. *)
Theorem sensor_touches_only_its_pins (s : UltrasonicSensor) (cs : list Call) :
  Forall (on_own_pins (trigger_pin_ s) (echo_pin_ s)) (pins s) ->
  trigger_pin_ (run s cs) = trigger_pin_ s /\
  echo_pin_ (run s cs) = echo_pin_ s /\
  Forall (on_own_pins (trigger_pin_ s) (echo_pin_ s)) (pins (run s cs)).
Proof.
  revert s. induction cs as [| c cs IH]; intros s W.
  - cbn. split; [reflexivity |]. split; [reflexivity | exact W].
  - destruct (call_keeps_wiring c s W) as (T & E & W').
    unfold Ultrasonic.run in *. cbn [fold_left].
    destruct (IH (call s c)) as (T1 & E1 & W1).
    { rewrite T, E. exact W'. }
    rewrite T in T1, W1. rewrite E in E1, W1.
    exact (conj T1 (conj E1 W1)).
Qed.

(** *** Changing the mode *)

Lemma run_automatic (s : UltrasonicSensor) (cs : list Call) :
  mode_ s = AUTOMATIC ->
  forallb (keeps_mode AUTOMATIC) cs = true ->
  mode_ (run s cs) = AUTOMATIC /\
  status_ (run s cs) = status_ s /\
  measurements (pins (run s cs))
  = (length (filter is_update cs) + measurements (pins s))%nat.
Proof.
  revert s. induction cs as [| c cs IH]; intros s A K.
  - cbn. split; [exact A |]. split; reflexivity.
  - cbn [forallb] in K. apply andb_prop in K. destruct K as [Kc K].
    destruct (SonarProofs.call_automatic distance_of_pulse c s A Kc)
      as (A' & St & Me).
    destruct (IH (call s c) A' K) as (I1 & I2 & I3).
    unfold Ultrasonic.run in *. cbn [fold_left filter].
    split; [exact I1 |]. split; [rewrite I2; exact St |].
    rewrite I3, Me. destruct (is_update c); cbn [length]; lia.
Qed.

(** X14: [setMode] never touches the request flag, and AUTOMATIC mode never
    clears it: a request that is pending when the sensor enters AUTOMATIC
    mode is still pending when it leaves, whatever ran in between, and the
    first [update()] back in MANUAL mode then makes one more measurement;
    without such a request that [update()] makes none. *)
Theorem request_survives_automatic_mode (s : UltrasonicSensor)
        (cs : list Call) (r : Readings) :
  mode_ s = AUTOMATIC ->
  forallb (keeps_mode AUTOMATIC) cs = true ->
  let back := setMode MANUAL (run s cs) in
  isUpdating back = isUpdating s /\
  measurements (pins (update r back))
  = (pending s + (length (filter is_update cs) + measurements (pins s)))%nat /\
  isUpdating (update r back) = false.
Proof.
  intros A K back. subst back.
  destruct (run_automatic s cs A K) as (_ & St & Me).
  assert (M : mode_ (setMode MANUAL (run s cs)) = MANUAL) by reflexivity.
  destruct (SonarProofs.manual_update_measures_step distance_of_pulse r
              (setMode MANUAL (run s cs)) M) as (_ & Hn & Hs).
  split; [exact St |]. split; [| exact Hs].
  rewrite Hn. unfold pending.
  change (status_ (setMode MANUAL (run s cs))) with (status_ (run s cs)).
  change (pins (setMode MANUAL (run s cs))) with (pins (run s cs)).
  rewrite St, Me. reflexivity.
Qed.

End Measure.

Lemma manual_requests_are_not_queued_witness :
  let s := sample_sensor MANUAL false 0 in
  let s1 := Nat.iter 3 startMeasurement s in
  let u := Ultrasonic.update sample_distance_of_pulse in
  mode_ s = MANUAL /\
  measurements (pins (u (sample_readings 5831) s1)) = 1%nat /\
  u (sample_readings 100) (u (sample_readings 5831) s1)
  = u (sample_readings 5831) s1.
Proof.
  cbv zeta. split; [reflexivity |].
  destruct (manual_requests_are_not_queued sample_distance_of_pulse 2
              (sample_readings 5831) (sample_readings 100)
              (sample_sensor MANUAL false 0) eq_refl) as (_ & _ & N & _ & I).
  split; [exact N | exact I].
Defined.

Lemma manual_measures_at_most_requests_witness :
  let s := sample_sensor MANUAL false 0 in
  let cs := [CallStartMeasurement; CallStartMeasurement;
             CallUpdate (sample_readings 5831); CallUpdate (sample_readings 100);
             CallSetMode MANUAL; CallGetDistance; CallStartMeasurement] in
  (mode_ s = MANUAL /\ forallb (keeps_mode MANUAL) cs = true) /\
  (measurements (pins (run sample_distance_of_pulse s cs))
   + pending (run sample_distance_of_pulse s cs)
   <= measurements (pins s) + pending s
      + length (filter is_startMeasurement cs))%nat.
Proof.
  cbv zeta. split; [split; reflexivity |].
  apply (manual_measures_at_most_requests sample_distance_of_pulse
           (sample_sensor MANUAL false 0)); reflexivity.
Defined.

Lemma sensor_touches_only_its_pins_witness :
  let s := sample_sensor AUTOMATIC false 0 in
  let cs := [CallUpdate (sample_readings 5831); CallSetMode MANUAL;
             CallStartMeasurement; CallUpdate (sample_readings 100)] in
  Forall (on_own_pins (trigger_pin_ s) (echo_pin_ s)) (pins s) /\
  Forall (on_own_pins 7 8) (pins (run sample_distance_of_pulse s cs)).
Proof.
  cbv zeta.
  assert (W : Forall (on_own_pins
                        (trigger_pin_ (sample_sensor AUTOMATIC false 0))
                        (echo_pin_ (sample_sensor AUTOMATIC false 0)))
                     (pins (sample_sensor AUTOMATIC false 0)))
    by constructor.
  split; [exact W |].
  exact (proj2 (proj2 (sensor_touches_only_its_pins sample_distance_of_pulse
                         (sample_sensor AUTOMATIC false 0) _ W))).
Defined.

Lemma request_survives_automatic_mode_witness :
  let s := setMode AUTOMATIC (startMeasurement (sample_sensor MANUAL false 0)) in
  let cs := [CallUpdate (sample_readings 5831); CallUpdate (sample_readings 100)] in
  let back := setMode MANUAL (run sample_distance_of_pulse s cs) in
  (mode_ s = AUTOMATIC /\ forallb (keeps_mode AUTOMATIC) cs = true) /\
  isUpdating back = true /\
  measurements
    (pins (Ultrasonic.update sample_distance_of_pulse (sample_readings 300) back))
  = 3%nat.
Proof.
  cbv zeta. split; [split; reflexivity |].
  destruct (request_survives_automatic_mode sample_distance_of_pulse
              (setMode AUTOMATIC (startMeasurement (sample_sensor MANUAL false 0)))
              [CallUpdate (sample_readings 5831); CallUpdate (sample_readings 100)]
              (sample_readings 300) eq_refl eq_refl) as (I & N & _).
  split; [exact I | exact N].
Defined.

End SonarExtras.

(** * Properties of the display helpers *)

Module LcdProofs.

Import Arduino LcdDisplay.
Import Ascii String.

Lemma length_append (a b : String.string) :
  String.length (String.append a b) = (String.length a + String.length b)%nat.
Proof.
  induction a as [| ch a IH]; cbn; [reflexivity | rewrite IH; reflexivity].
Qed.

Lemma blanks_length (k : nat) : String.length (blanks k) = k.
Proof. induction k as [| k IH]; cbn; [reflexivity | rewrite IH; reflexivity]. Qed.

Lemma blanks_shift (k : nat) (str : String.string) :
  String.append (blanks k) (String.String " "%char str)
  = String.String " "%char (String.append (blanks k) str).
Proof.
  induction k as [| k IH]; cbn; [reflexivity | rewrite IH; reflexivity].
Qed.

(** The loop stops, and what it has added is blanks in front. *)
Lemma pad_left_blanks (fuel : nat) (width : Z) (str : String.string) :
  (Z.to_nat (width - Z.of_nat (String.length str)) <= fuel)%nat ->
  pad_left fuel width str
  = String.append
      (blanks (Z.to_nat (width - Z.of_nat (String.length str)))) str.
Proof.
  revert str. induction fuel as [| fuel IH]; intros str Hf.
  - cbn [pad_left].
    replace (Z.to_nat (width - Z.of_nat (String.length str))) with O by lia.
    reflexivity.
  - cbn [pad_left].
    destruct (Z.of_nat (String.length str) <? width) eqn:E.
    + apply Z.ltb_lt in E.
      rewrite IH by (cbn [String.append String.length]; lia).
      cbn [String.append String.length].
      replace (Z.to_nat (width - Z.of_nat (String.length str)))
        with (S (Z.to_nat (width - Z.of_nat (S (String.length str)))))
        by lia.
      cbn [blanks String.append]. apply blanks_shift.
    + apply Z.ltb_ge in E.
      replace (Z.to_nat (width - Z.of_nat (String.length str))) with O by lia.
      reflexivity.
Qed.

(** A number below [10 ^ k] has between one and [k] digits. *)
Lemma decimal_length (fuel k : nat) (n : Z) (acc : String.string) :
  (1 <= k <= fuel)%nat -> 0 <= n < 10 ^ Z.of_nat k ->
  (String.length acc + 1 <= String.length (decimal fuel n acc)
   <= String.length acc + k)%nat.
Proof.
  revert k n acc. induction fuel as [| fuel IH]; intros k n acc Hk Hn.
  - lia.
  - cbn [decimal].
    destruct (n / 10 =? 0) eqn:E.
    + cbn [String.length]. lia.
    + apply Z.eqb_neq in E.
      assert (Hq : 0 < n / 10).
      { pose proof (Z.div_pos n 10 ltac:(lia) ltac:(lia)). lia. }
      destruct k as [| [| k]]; [lia | |].
      * change (10 ^ Z.of_nat 1) with 10 in Hn.
        rewrite Z.div_small in Hq by lia. lia.
      * assert (Hn' : 0 <= n / 10 < 10 ^ Z.of_nat (S k)).
        { split; [lia |].
          apply Z.div_lt_upper_bound; [lia |].
          replace (Z.of_nat (S (S k))) with (Z.succ (Z.of_nat (S k))) in Hn by lia.
          rewrite Z.pow_succ_r in Hn by lia. lia. }
        specialize (IH (S k) (n / 10)
                       (String.String (digit_char (n mod 10)) acc)
                       ltac:(lia) Hn').
        cbn [String.length] in IH. lia.
Qed.

Lemma String_of_int_length (k : nat) (n : Z) :
  (1 <= k <= 10)%nat -> 0 <= n < 10 ^ Z.of_nat k ->
  (1 <= String.length (String_of_int n) <= k)%nat.
Proof.
  intros Hk Hn. unfold String_of_int.
  destruct (n <? 0) eqn:E; [apply Z.ltb_lt in E; lia |].
  pose proof (decimal_length 10 k n String.EmptyString Hk Hn) as H.
  cbn [String.length] in H. lia.
Qed.

Lemma abs_constrain (num limit : Z) :
  0 <= limit ->
  abs (constrain num (- limit) limit) = Z.min (Z.abs num) limit.
Proof.
  intros H. unfold abs, constrain.
  destruct (num <? - limit) eqn:E1.
  - destruct (- limit >? 0) eqn:E2; lia.
  - destruct (num >? limit) eqn:E2.
    + destruct (limit >? 0) eqn:E3; lia.
    + destruct (num >? 0) eqn:E3; lia.
Qed.

Section Format.

Variable limit_of_digits : Z -> Z.

#[local] Abbreviation formatNumber := (formatNumber limit_of_digits).
#[local] Abbreviation lcdUpdate := (lcdUpdate limit_of_digits).

Lemma formatNumber_blanks_body (num max_digits : Z) (show_sign : bool) :
  0 <= limit_of_digits max_digits <= 65535 ->
  0 <= max_digits <= 255 ->
  let digits := String_of_int (Z.min (Z.abs num) (limit_of_digits max_digits)) in
  let sign := if num >? 0 then "+"%string
              else if num <? 0 then "-"%string else " "%string in
  let body := if show_sign then String.append sign digits else digits in
  let width := max_digits + (if show_sign then 1 else 0) in
  formatNumber num max_digits show_sign
  = String.append
      (blanks (Z.to_nat (width - Z.of_nat (String.length body)))) body /\
  width <= Z.of_nat (String.length (formatNumber num max_digits show_sign)) /\
  (1 <= max_digits -> limit_of_digits max_digits < 10 ^ max_digits ->
   Z.of_nat (String.length (formatNumber num max_digits show_sign)) = width).
Proof.
  intros Hl Hd. cbv zeta.
  set (limit := limit_of_digits max_digits) in *.
  set (digits := String_of_int (Z.min (Z.abs num) limit)).
  set (sign := if num >? 0 then "+"%string
               else if num <? 0 then "-"%string else " "%string).
  set (body := if show_sign then String.append sign digits else digits).
  set (width := max_digits + (if show_sign then 1 else 0)).
  assert (E : formatNumber num max_digits show_sign
              = String.append
                  (blanks (Z.to_nat (width - Z.of_nat (String.length body))))
                  body).
  { unfold LcdDisplay.formatNumber. fold limit.
    rewrite (abs_constrain num limit) by lia.
    fold digits. fold sign. fold body. fold width.
    apply pad_left_blanks. lia. }
  split; [exact E |].
  rewrite E, length_append, blanks_length.
  split; [lia |].
  intros H1 Hlt.
  assert (Hlen : (1 <= String.length digits)%nat
                 /\ Z.of_nat (String.length digits) <= max_digits).
  { subst digits.
    destruct (Z_le_gt_dec max_digits 5) as [Hs | Hb].
    - pose proof (String_of_int_length (Z.to_nat max_digits)
                    (Z.min (Z.abs num) limit) ltac:(lia)) as H.
      rewrite Z2Nat.id in H by lia.
      specialize (H ltac:(lia)). lia.
    - pose proof (String_of_int_length 5
                    (Z.min (Z.abs num) limit) ltac:(lia)) as H.
      change (10 ^ Z.of_nat 5) with 100000 in H.
      specialize (H ltac:(lia)). lia. }
  assert (Hsign : String.length sign = 1%nat).
  { subst sign. destruct (num >? 0); [reflexivity |].
    destruct (num <? 0); reflexivity. }
  subst body width. destruct show_sign.
  - rewrite length_append, Hsign. lia.
  - lia.
Qed.

(** X15: [formatNumber] shows the size of the number, saturated at the limit and
    not cut off, behind the sign of the number itself when a sign is asked
    for, behind as many blanks as the width needs; the text is never
    shorter than [max_digits] plus the sign, and exactly that wide when
    the limit is below [10 ^ max_digits] and [max_digits] is not 0. *)
Theorem formatNumber_layout (num max_digits : Z) (show_sign : bool) :
  0 <= limit_of_digits max_digits <= 65535 ->
  0 <= max_digits <= 255 ->
  let digits := String_of_int (Z.min (Z.abs num) (limit_of_digits max_digits)) in
  let sign := if num >? 0 then "+"%string
              else if num <? 0 then "-"%string else " "%string in
  let body := if show_sign then String.append sign digits else digits in
  let width := max_digits + (if show_sign then 1 else 0) in
  formatNumber num max_digits show_sign
  = String.append
      (blanks (Z.to_nat (width - Z.of_nat (String.length body)))) body /\
  width <= Z.of_nat (String.length (formatNumber num max_digits show_sign)) /\
  (1 <= max_digits -> limit_of_digits max_digits < 10 ^ max_digits ->
   Z.of_nat (String.length (formatNumber num max_digits show_sign)) = width).
Proof.
  intros Hl Hd. exact (formatNumber_blanks_body num max_digits show_sign Hl Hd).
Qed.

(** X16: [lcdUpdate] sends nothing when the number has not changed; when it has,
    it sends one cursor position and one text, and with a limit below
    [10 ^ max_digits] that text is exactly [max_digits] plus the sign wide,
    whatever the number, so it covers all of the text printed before. *)
Theorem lcdUpdate_prints_fixed_width_on_change
        (last_num current_num cursor_x cursor_y max_digits : Z)
        (show_sign : bool) (lcd : Lcd) :
  0 <= limit_of_digits max_digits <= 65535 ->
  1 <= max_digits <= 255 ->
  limit_of_digits max_digits < 10 ^ max_digits ->
  (last_num = current_num ->
   lcdUpdate last_num current_num cursor_x cursor_y max_digits show_sign lcd
   = lcd) /\
  (last_num <> current_num ->
   exists text,
     lcdUpdate last_num current_num cursor_x cursor_y max_digits show_sign lcd
     = Print text :: SetCursor cursor_x cursor_y :: lcd /\
     text = formatNumber current_num max_digits show_sign /\
     Z.of_nat (String.length text)
     = max_digits + (if show_sign then 1 else 0)).
Proof.
  intros Hl Hd Hlt. unfold LcdDisplay.lcdUpdate. split.
  - intros ->. rewrite Z.eqb_refl. reflexivity.
  - intros N. apply Z.eqb_neq in N. rewrite N. cbn [negb].
    exists (formatNumber current_num max_digits show_sign).
    split; [reflexivity |]. split; [reflexivity |].
    destruct (formatNumber_blanks_body current_num max_digits show_sign Hl
                ltac:(lia)) as (_ & _ & W).
    apply W; [lia | exact Hlt].
Qed.

End Format.

(** -12345 in three digits with a sign: the sign of the number, the size
    saturated at 999. *)
Lemma formatNumber_layout_witness :
  (0 <= exact_limit 3 <= 65535 /\ 0 <= 3 <= 255) /\
  formatNumber exact_limit (-12345) 3 true = "-999"%string /\
  Z.of_nat (String.length (formatNumber exact_limit (-12345) 3 true)) = 4.
Proof.
  assert (Hl : 0 <= exact_limit 3 <= 65535) by (vm_compute; split; discriminate).
  assert (Hd : 0 <= 3 <= 255) by lia.
  split; [exact (conj Hl Hd) |].
  destruct (formatNumber_layout exact_limit (-12345) 3 true Hl Hd)
    as (E & _ & W).
  split; [exact E |].
  apply W; [lia | vm_compute; reflexivity].
Defined.

Example formatNumber_samples :
  formatNumber exact_limit 42 3 true = " +42"%string /\
  formatNumber exact_limit 0 3 true = "   0"%string /\
  formatNumber exact_limit (-7) 4 false = "   7"%string /\
  formatNumber exact_limit 32767 4 false = "9999"%string /\
  formatNumber exact_limit 5 0 false = "0"%string.
Proof. repeat split. Qed.

Lemma lcdUpdate_prints_fixed_width_on_change_witness :
  (0 <= exact_limit 3 <= 65535 /\ 1 <= 3 <= 255 /\ exact_limit 3 < 10 ^ 3) /\
  lcdUpdate exact_limit 120 120 1 0 3 false [] = [] /\
  lcdUpdate exact_limit 120 85 1 0 3 false []
  = [Print " 85"%string; SetCursor 1 0].
Proof.
  assert (Hl : 0 <= exact_limit 3 <= 65535) by (vm_compute; split; discriminate).
  assert (Hd : 1 <= 3 <= 255) by lia.
  assert (Hlt : exact_limit 3 < 10 ^ 3) by (vm_compute; reflexivity).
  split; [exact (conj Hl (conj Hd Hlt)) |].
  destruct (lcdUpdate_prints_fixed_width_on_change exact_limit
              120 120 1 0 3 false [] Hl Hd Hlt) as (Same & _).
  split; [exact (Same eq_refl) | reflexivity].
Defined.

End LcdProofs.
